(** * A voice cold-call agent: prompt templates, conversation memory and
      the greeting / turn-taking / farewell lifecycle

    Shallow embedding of [my_submission.py].  The three external services
    (speech recognition, text-to-speech, the generative model) are oracles
    whose answers may depend on the whole interaction so far; every call to
    one of them is recorded in the agent's [calls] log, which is how the
    theorems below speak about what was or was not attempted. *)

From Stdlib Require Import Ascii String List Bool Arith Lia.
From stdpp Require Import base option list strings gmap fin_maps.

Local Open Scope stdpp_scope.

(** ** Python values used by the program *)

(** Exceptions deriving from [Exception].  Interrupts ([KeyboardInterrupt],
    [SystemExit]) are not errors of a service and are outside the model.
    [FieldError] is what [str.format] raises for a replacement field it
    cannot resolve when the class of the exception hangs on something the
    embedding leaves out: [IndexError] or [ValueError] for a long numeric
    name (by the width of machine integers), one of these or [KeyError]
    for a name made of digits and non-ASCII characters (by the Unicode
    digit tables). *)
Inductive exn : Type :=
| KeyError (key : string)
| IndexError (msg : string)
| ValueError (msg : string)
| FieldError (field : string)
| OtherError (cls msg : string).

Inductive outcome (A : Type) : Type :=
| Ret (a : A)
| Raise (e : exn).
Arguments Ret {A} a.
Arguments Raise {A} e.

(** [str.lower] on the ASCII range; bytes outside it are left alone, so
    this is [str.lower] on ASCII text.  Text with other characters is
    lowercased by the interpreter's Unicode tables: see [python_lower]. *)
Definition lower_ascii (c : ascii) : ascii :=
  let n := nat_of_ascii c in
  if (65 <=? n) && (n <=? 90) then ascii_of_nat (n + 32) else c.

Fixpoint lower (s : string) : string :=
  match s with
  | EmptyString => EmptyString
  | String c rest => String (lower_ascii c) (lower rest)
  end.

(** Truthiness of a [str]: only the empty string is falsy. *)
Definition truthy (s : string) : bool :=
  match s with
  | EmptyString => false
  | String _ _ => true
  end.

(** [d.get(k, dflt)] *)
Definition dict_get {V : Type} (d : gmap string V) (k : string) (dflt : V) : V :=
  default dflt (d !! k).

(** ** [str.format] with keyword arguments only

    The scanner works left to right, one character at a time, the way the
    interpreter parses a format string.  Doubled braces are literal braces.
    A single opening brace starts a replacement field: its argument name
    runs up to the first of [} { [ . ! :]; an attribute and index part, a
    conversion and a format specification may follow before the closing
    brace.  The argument name is then resolved: the empty name and a
    numeric name ask for a positional argument, of which there is none;
    any other name is looked up among the keyword arguments ([KeyError]
    when absent).  Syntax errors raise [ValueError].  What a field with an
    attribute, index, conversion or format specification makes of a value
    that was found is beyond this embedding: the result is [None] there. *)

Inductive fmt_state : Type :=
| InText
| AfterOpen
| AfterClose
| InField (name : string)
| InTail (name : string) (in_bracket : bool)
| InConversion (name : string)
| AfterConversion (name : string)
| InSpec (name : string) (depth : nat).

Definition is_name_start (c : ascii) : bool :=
  let n := nat_of_ascii c in
  ((65 <=? n) && (n <=? 90)) || ((97 <=? n) && (n <=? 122)) || (n =? 95).

Definition is_digit (c : ascii) : bool :=
  let n := nat_of_ascii c in
  (48 <=? n) && (n <=? 57).

Definition is_name_char (c : ascii) : bool :=
  let n := nat_of_ascii c in
  is_name_start c || ((48 <=? n) && (n <=? 57)).

Fixpoint kwargs_get (kwargs : list (string * string)) (name : string) : option string :=
  match kwargs with
  | [] => None
  | (k, v) :: rest => if String.eqb k name then Some v else kwargs_get rest name
  end.

Definition emit (c : ascii) (r : option (outcome string)) : option (outcome string) :=
  match r with
  | Some (Ret s) => Some (Ret (String c s))
  | _ => r
  end.

Definition emit_str (v : string) (r : option (outcome string)) : option (outcome string) :=
  match r with
  | Some (Ret s) => Some (Ret (v +:+ s))
  | _ => r
  end.

(** What one character does to the scanner. *)
Inductive scan : Type :=
| Continue (st : fmt_state)
| Emit (c : ascii) (st : fmt_state)
| EndSimple (name : string)
| EndComplex (name : string)
| Fail (e : exn).

Definition name_step (name : string) (c : ascii) : scan :=
  if Ascii.eqb c "}"%char then EndSimple name
  else if Ascii.eqb c "{"%char then
    Fail (ValueError "unexpected '{' in field name")
  else if Ascii.eqb c "["%char then Continue (InTail name true)
  else if Ascii.eqb c "."%char then Continue (InTail name false)
  else if Ascii.eqb c "!"%char then Continue (InConversion name)
  else if Ascii.eqb c ":"%char then Continue (InSpec name 0)
  else Continue (InField (name +:+ String c EmptyString)).

Definition scan_step (st : fmt_state) (c : ascii) : scan :=
  match st with
  | InText =>
      if Ascii.eqb c "{"%char then Continue AfterOpen
      else if Ascii.eqb c "}"%char then Continue AfterClose
      else Emit c InText
  | AfterOpen =>
      if Ascii.eqb c "{"%char then Emit "{"%char InText
      else name_step EmptyString c
  | AfterClose =>
      if Ascii.eqb c "}"%char then Emit "}"%char InText
      else Fail (ValueError "Single '}' encountered in format string")
  | InField name => name_step name c
  | InTail name in_bracket =>
      if in_bracket then Continue (InTail name (negb (Ascii.eqb c "]"%char)))
      else if Ascii.eqb c "}"%char then EndComplex name
      else if Ascii.eqb c "{"%char then
        Fail (ValueError "unexpected '{' in field name")
      else if Ascii.eqb c "["%char then Continue (InTail name true)
      else if Ascii.eqb c "!"%char then Continue (InConversion name)
      else if Ascii.eqb c ":"%char then Continue (InSpec name 0)
      else Continue (InTail name false)
  | InConversion name => Continue (AfterConversion name)
  | AfterConversion name =>
      if Ascii.eqb c "}"%char then EndComplex name
      else if Ascii.eqb c ":"%char then Continue (InSpec name 0)
      else Fail (ValueError "expected ':' after conversion specifier")
  | InSpec name depth =>
      if Ascii.eqb c "{"%char then Continue (InSpec name (S depth))
      else if Ascii.eqb c "}"%char then
        match depth with
        | O => EndComplex name
        | S depth' => Continue (InSpec name depth')
        end
      else Continue (InSpec name depth)
  end.

(** The end of the format string. *)
Definition scan_end (st : fmt_state) : outcome string :=
  match st with
  | InText => Ret EmptyString
  | AfterOpen => Raise (ValueError "Single '{' encountered in format string")
  | AfterClose => Raise (ValueError "Single '}' encountered in format string")
  | InField _ | InTail _ _ =>
      Raise (ValueError "expected '}' before end of string")
  | InConversion _ =>
      Raise (ValueError "end of string while looking for conversion specifier")
  | AfterConversion _ | InSpec _ _ =>
      Raise (ValueError "unmatched '{' in format spec")
  end.

Fixpoint all_digits (s : string) : bool :=
  match s with
  | EmptyString => true
  | String c rest => is_digit c && all_digits rest
  end.

(** An ASCII character that is not a digit makes the name a keyword. *)
Fixpoint has_key_char (s : string) : bool :=
  match s with
  | EmptyString => false
  | String c rest =>
      ((nat_of_ascii c <? 128) && negb (is_digit c)) || has_key_char rest
  end.

Fixpoint drop_zeros (s : string) : string :=
  match s with
  | EmptyString => EmptyString
  | String c rest => if Ascii.eqb c "0"%char then drop_zeros rest else s
  end.

(** The decimal the interpreter prints for a numeric field name. *)
Definition index_text (digits : string) : string :=
  match drop_zeros digits with
  | EmptyString => "0"
  | text => text
  end.

(** Resolving the argument name of a field, with no positional arguments. *)
Definition resolve_field (kwargs : list (string * string)) (name : string)
  : option (outcome string) :=
  match name with
  | EmptyString =>
      Some (Raise (IndexError
                     "Replacement index 0 out of range for positional args tuple"))
  | _ =>
      if has_key_char name then
        match kwargs_get kwargs name with
        | Some v => Some (Ret v)
        | None => Some (Raise (KeyError name))
        end
      else if all_digits name then
        if String.length name <=? 9 then
          Some (Raise (IndexError
                         ("Replacement index " +:+ index_text name
                          +:+ " out of range for positional args tuple")))
        else Some (Raise (FieldError name))
      else
        match kwargs_get kwargs name with
        | Some _ => None
        | None => Some (Raise (FieldError name))
        end
  end.

(** A field that is just a name inserts the value and scanning goes on. *)
Definition end_simple (kwargs : list (string * string)) (name : string)
  (continue : option (outcome string)) : option (outcome string) :=
  match resolve_field kwargs name with
  | Some (Ret v) => emit_str v continue
  | r => r
  end.

(** A field with more than a name fails when the name does not resolve. *)
Definition end_complex (kwargs : list (string * string)) (name : string)
  : option (outcome string) :=
  match resolve_field kwargs name with
  | Some (Ret _) => None
  | r => r
  end.

Fixpoint format_from (kwargs : list (string * string)) (st : fmt_state) (t : string)
  : option (outcome string) :=
  match t with
  | EmptyString => Some (scan_end st)
  | String c rest =>
      match scan_step st c with
      | Continue st' => format_from kwargs st' rest
      | Emit c' st' => emit c' (format_from kwargs st' rest)
      | EndSimple name => end_simple kwargs name (format_from kwargs InText rest)
      | EndComplex name => end_complex kwargs name
      | Fail e => Some (Raise e)
      end
  end.

Definition str_format (template : string) (kwargs : list (string * string))
  : option (outcome string) :=
  format_from kwargs InText template.

(** ** ConversationMemory *)

(** A message is the dict [{"role": ..., "content": ...}]; the only two
    roles the program ever writes are ["user"] and ["agent"]. *)
Inductive role : Type := user | agent.

Record message : Type := Message { msg_role : role; content : string }.

Record ConversationMemory : Type := {
  context : gmap string (gmap string string);
  messages : list message
}.

Definition ConversationMemory_init : ConversationMemory :=
  {| context := <["profile" := ∅]> (<["knowledge" := ∅]> ∅);
     messages := [] |}.

Definition add_user_message (msg : string) (self : ConversationMemory)
  : ConversationMemory :=
  {| context := context self;
     messages := messages self ++ [Message user msg] |}.

Definition add_agent_message (msg : string) (self : ConversationMemory)
  : ConversationMemory :=
  {| context := context self;
     messages := messages self ++ [Message agent msg] |}.

Definition newline : string := String (ascii_of_nat 10) EmptyString.

Definition history_entry (msg : message) : string :=
  let prefix := match msg_role msg with user => "Customer" | agent => "AI" end in
  prefix +:+ ": " +:+ content msg +:+ newline.

(** The [for] loop with its accumulator [history]. *)
Definition get_conversation_history (self : ConversationMemory) : string :=
  fold_left (fun history msg => history +:+ history_entry msg) (messages self) EmptyString.

Definition set_context (key : string) (data : gmap string string)
  (self : ConversationMemory) : ConversationMemory :=
  {| context := <[key := data]> (context self);
     messages := messages self |}.

Definition get_context (key : string) (dflt : gmap string string)
  (self : ConversationMemory) : gmap string string :=
  dict_get (context self) key dflt.

(** ** The prompt catalogue of [_get_prompt_template] *)

Definition demo_greeting : string :=
"
                You are an AI assistant conducting a cold call in Hinglish (mix of Hindi and English).
                
                You're a sales representative for an ERP software company.
                Your goal is to schedule a product demo.
                
                Customer profile:
                Name: {name}
                Company: {company}
                Role: {role}
                Interest area: {interest_area}
                Company size: {company_size}
                
                Start with a friendly greeting in Hinglish.
                Introduce yourself, mention your company, and state the purpose of your call.
                Keep your response concise (2-3 sentences) and end with an open question.
                ".

Definition demo_conversation : string :=
"
                You are an AI assistant conducting a cold call in Hinglish (mix of Hindi and English).
                
                You're a sales representative for an ERP software company.
                Your goal is to schedule a product demo.
                Highlight benefits relevant to the customer's interests.
                Try to get a specific date and time for the demo.
                
                Customer profile:
                Name: {name}
                Company: {company}
                Role: {role}
                Interest area: {interest_area}
                Company size: {company_size}
                
                Conversation history:
                {conversation_history}
                
                Customer's most recent message: {user_input}
                
                Respond in Hinglish with a friendly, professional tone.
                Address customer concerns empathetically and move the conversation toward scheduling a demo.
                Keep your response concise (2-4 sentences).
                ".

Definition demo_farewell : string :=
"
                You are an AI assistant concluding a cold call in Hinglish (mix of Hindi and English).
                
                You're a sales representative for an ERP software company.
                
                Customer profile:
                Name: {name}
                Company: {company}
                
                Conversation history:
                {conversation_history}
                
                Create a polite and warm closing statement in Hinglish that:
                1. Thanks the customer for their time
                2. Summarizes any demo scheduling details
                3. Mentions that you'll send a confirmation email
                4. Ends on a positive note
                
                Keep your response concise (2-3 sentences).
                ".

Definition interview_greeting : string :=
"
                You are an AI assistant conducting an interview in Hinglish (mix of Hindi and English).
                
                You're an HR representative conducting an initial screening interview.
                Your goal is to assess the candidate's fit for the position.
                
                Candidate profile:
                Name: {name}
                Experience: {experience}
                Current role: {current_role}
                Applied for: {applied_for}
                
                Position details:
                Position: {position}
                Skills required: {skills}
                Experience required: {experience_required}
                Company domain: {company_domain}
                
                Start with a friendly greeting in Hinglish.
                Introduce yourself, mention your company, and explain the interview process.
                Keep your response concise (2-3 sentences) and end with an open question about their background.
                ".

Definition interview_conversation : string :=
"
                You are an AI assistant conducting an interview in Hinglish (mix of Hindi and English).
                
                You're an HR representative conducting an initial screening interview.
                Your goal is to assess the candidate's fit for the position.
                Ask about relevant skills, experiences, and interest in the role.
                Evaluate communication skills and cultural fit.
                
                Candidate profile:
                Name: {name}
                Experience: {experience}
                Current role: {current_role}
                Applied for: {applied_for}
                
                Position details:
                Position: {position}
                Skills required: {skills}
                Experience required: {experience_required}
                Company domain: {company_domain}
                
                Interview history:
                {conversation_history}
                
                Candidate's most recent response: {user_input}
                
                Respond in Hinglish with a professional tone.
                Ask follow-up questions that help assess the candidate's suitability.
                Keep your response concise (2-3 sentences).
                ".

Definition interview_farewell : string :=
"
                You are an AI assistant concluding an interview in Hinglish (mix of Hindi and English).
                
                You're an HR representative who has just completed an initial screening interview.
                
                Candidate profile:
                Name: {name}
                Applied for: {applied_for}
                
                Interview history:
                {conversation_history}
                
                Create a polite and professional closing statement in Hinglish that:
                1. Thanks the candidate for their time
                2. Explains the next steps in the interview process
                3. Mentions when they can expect to hear back
                4. Ends on an encouraging note
                
                Keep your response concise (2-3 sentences).
                ".

Definition payment_greeting : string :=
"
                You are an AI assistant conducting a payment follow-up call in Hinglish (mix of Hindi and English).
                
                You're from the accounts department following up on an overdue payment.
                Your goal is to secure a commitment for payment.
                
                Customer profile:
                Name: {name}
                Company: {company}
                Role: {role}
                
                Invoice details:
                Invoice number: {invoice_number}
                Due amount: {due_amount}
                Days late: {days_late}
                Payment history: {payment_history}
                
                Start with a polite greeting in Hinglish.
                Introduce yourself, mention your company's accounts department, and state the purpose of your call.
                Keep your response concise (2-3 sentences) and be respectful but direct about the overdue payment.
                ".

Definition payment_conversation : string :=
"
                You are an AI assistant conducting a payment follow-up call in Hinglish (mix of Hindi and English).
                
                You're from the accounts department following up on an overdue payment.
                Your goal is to secure a commitment for payment.
                Be polite but firm about the urgency.
                Try to get a specific date for when the payment will be made.
                
                Customer profile:
                Name: {name}
                Company: {company}
                Role: {role}
                
                Invoice details:
                Invoice number: {invoice_number}
                Due amount: {due_amount}
                Days late: {days_late}
                Payment history: {payment_history}
                
                Conversation history:
                {conversation_history}
                
                Customer's most recent message: {user_input}
                
                Respond in Hinglish with a professional tone.
                Be understanding but firm about the need for payment.
                Keep your response concise (2-3 sentences).
                ".

Definition payment_farewell : string :=
"
                You are an AI assistant concluding a payment follow-up call in Hinglish (mix of Hindi and English).
                
                You're from the accounts department following up on an overdue payment.
                
                Customer profile:
                Name: {name}
                Company: {company}
                
                Invoice details:
                Invoice number: {invoice_number}
                Due amount: {due_amount}
                
                Conversation history:
                {conversation_history}
                
                Create a polite and professional closing statement in Hinglish that:
                1. Thanks the customer for their time
                2. Summarizes any payment commitments made
                3. Confirms any next steps
                4. Ends on a positive note
                
                Keep your response concise (2-3 sentences).
                ".

Definition templates : gmap string (gmap string string) :=
  <["demo" := <["greeting" := demo_greeting]>
                (<["conversation" := demo_conversation]>
                (<["farewell" := demo_farewell]> ∅))]>
 (<["interview" := <["greeting" := interview_greeting]>
                (<["conversation" := interview_conversation]>
                (<["farewell" := interview_farewell]> ∅))]>
 (<["payment" := <["greeting" := payment_greeting]>
                (<["conversation" := payment_conversation]>
                (<["farewell" := payment_farewell]> ∅))]> ∅)).

Definition scenarios : list string := ["demo"; "interview"; "payment"].
Definition phases : list string := ["greeting"; "conversation"; "farewell"].

(** The pairs that have an entry in the catalogue. *)
Definition in_catalog (scenario phase : string) : Prop :=
  scenario ∈ scenarios ∧ phase ∈ phases.

(** The placeholder names [_format_prompt] passes to [str.format]. *)
Definition placeholder_names : list string :=
  ["name"; "company"; "role"; "interest_area"; "company_size"; "experience";
   "current_role"; "applied_for"; "position"; "skills"; "experience_required";
   "company_domain"; "invoice_number"; "due_amount"; "days_late";
   "payment_history"; "conversation_history"; "user_input"].

Definition fallback_text : string :=
  "Sorry, I'm having trouble generating a response. Let me try again.".

Definition exit_commands : list string :=
  ["bye"; "goodbye"; "end call"; "quit"; "exit"; "bye-bye"].

(** ** The external services *)

Inductive event : Type :=
| EvListen
| EvGenerate (prompt : string)
| EvSpeak (text : string).

(** What one [recognizer.listen] / [recognize_google] round does. *)
Inductive listen_result : Type :=
| Heard (text : string)
| UnknownValueError
| RequestError (msg : string)
| WaitTimeoutError
| ListenCrash (e : exn).

(** What [model.generate_content] and reading the response do: a response
    with a [text] attribute, a response without one (with its [str]), or an
    exception from either step. *)
Inductive generate_result : Type :=
| GenText (text : string)
| GenNoText (repr : string)
| GenError (e : exn).

(** What [speak] runs into: playback, an exception inside its [try] (caught
    and printed), or an exception outside it (text cleaning, the cleanup of
    the [finally] block), which escapes. *)
Inductive speak_result : Type :=
| Played
| TTSError (e : exn)
| SpeakCrash (e : exn).

Record Services : Type := {
  recognizer : list event -> listen_result;
  model : list event -> string -> generate_result;
  tts : list event -> string -> speak_result
}.

(** ** GeminiAgent *)

Record GeminiAgent : Type := {
  scenario : string;
  memory : ConversationMemory;
  running : bool;
  calls : list event
}.

Definition with_memory (f : ConversationMemory -> ConversationMemory)
  (self : GeminiAgent) : GeminiAgent :=
  {| scenario := scenario self; memory := f (memory self);
     running := running self; calls := calls self |}.

Definition with_running (b : bool) (self : GeminiAgent) : GeminiAgent :=
  {| scenario := scenario self; memory := memory self;
     running := b; calls := calls self |}.

Definition record_call (ev : event) (self : GeminiAgent) : GeminiAgent :=
  {| scenario := scenario self; memory := memory self;
     running := running self; calls := calls self ++ [ev] |}.

Definition _load_scenario_data (scenario : string) (mem : ConversationMemory)
  : ConversationMemory :=
  if String.eqb scenario "demo" then
    set_context "profile"
      (<["name" := "Ansh Aggarwal"]> (<["company" := "Tech Solutions Ltd"]>
       (<["role" := "IT Manager"]>
       (<["interest_area" := "Inventory Management and HR modules"]>
       (<["company_size" := "150 employees"]> ∅))))) mem
  else if String.eqb scenario "interview" then
    set_context "knowledge"
      (<["position" := "Software Engineer"]>
       (<["skills" := "Python, React, SQL, Cloud platforms"]>
       (<["experience_required" := "2-5 years"]>
       (<["company_domain" := "FinTech"]> ∅))))
      (set_context "profile"
        (<["name" := "Ansh Aggarwal"]> (<["experience" := "3 years"]>
         (<["current_role" := "Junior Developer"]>
         (<["applied_for" := "Software Engineer"]> ∅)))) mem)
  else if String.eqb scenario "payment" then
    set_context "knowledge"
      (<["invoice_number" := "INV-2024-1075"]>
       (<["due_amount" := "₹4,85,000"]>
       (<["days_late" := "45"]>
       (<["payment_history" := "Generally good, but occasional delays"]> ∅))))
      (set_context "profile"
        (<["name" := "Customer"]> (<["company" := "Global Enterprises"]>
         (<["role" := "Procurement Manager"]> ∅))) mem)
  else mem.

Definition GeminiAgent_init (scenario : string) : GeminiAgent :=
  {| scenario := scenario;
     memory := _load_scenario_data scenario ConversationMemory_init;
     running := false;
     calls := [] |}.

(** Methods run in a state-and-exception monad over the agent.  [None]
    means the embedding has no answer: the turn-taking loop ran out of
    fuel, or a template left the modelled fragment of [str.format]. *)
Definition M (A : Type) : Type := GeminiAgent -> option (outcome A * GeminiAgent).

#[global] Instance M_ret : MRet M := fun A a self => Some (Ret a, self).

#[global] Instance M_bind : MBind M := fun A B k m self =>
  match m self with
  | Some (Ret a, self') => k a self'
  | Some (Raise e, self') => Some (Raise e, self')
  | None => None
  end.

(** [templates.get(scenario, {}).get(phase, "")] *)
Definition catalog_lookup (scenario phase : string) : string :=
  dict_get (dict_get templates scenario ∅) phase EmptyString.

Definition _get_prompt_template (phase : string) : M string := fun self =>
  Some (Ret (catalog_lookup (scenario self) phase), self).

Definition format_kwargs (user_input : string) (self : GeminiAgent)
  : list (string * string) :=
  let profile := get_context "profile" ∅ (memory self) in
  let knowledge := get_context "knowledge" ∅ (memory self) in
  [("name", dict_get profile "name" EmptyString);
   ("company", dict_get profile "company" EmptyString);
   ("role", dict_get profile "role" EmptyString);
   ("interest_area", dict_get profile "interest_area" EmptyString);
   ("company_size", dict_get profile "company_size" EmptyString);
   ("experience", dict_get profile "experience" EmptyString);
   ("current_role", dict_get profile "current_role" EmptyString);
   ("applied_for", dict_get profile "applied_for" EmptyString);
   ("position", dict_get knowledge "position" EmptyString);
   ("skills", dict_get knowledge "skills" EmptyString);
   ("experience_required", dict_get knowledge "experience_required" EmptyString);
   ("company_domain", dict_get knowledge "company_domain" EmptyString);
   ("invoice_number", dict_get knowledge "invoice_number" EmptyString);
   ("due_amount", dict_get knowledge "due_amount" EmptyString);
   ("days_late", dict_get knowledge "days_late" EmptyString);
   ("payment_history", dict_get knowledge "payment_history" EmptyString);
   ("conversation_history", get_conversation_history (memory self));
   ("user_input", user_input)].

Definition _format_prompt (template user_input : string) : M string := fun self =>
  match str_format template (format_kwargs user_input self) with
  | Some o => Some (o, self)
  | None => None
  end.

Section Agent.

Variable svc : Services.

(** *** SpeechHandler *)

(** The transcription is lowercased with [lower]: exact for ASCII
    transcriptions; [recognize_speech_with] below covers any text. *)
Definition recognize_speech : M string := fun self =>
  let self' := record_call EvListen self in
  match recognizer svc (calls self) with
  | Heard text => Some (Ret (lower text), self')
  | UnknownValueError => Some (Ret EmptyString, self')
  | RequestError _ => Some (Ret EmptyString, self')
  | WaitTimeoutError => Some (Ret EmptyString, self')
  | ListenCrash e => Some (Raise e, self')
  end.

(** A run of [speak] that ends, as the [tts] oracle describes it; a
    playback that never ends is the subject of [speak_with] below. *)
Definition speak (text : string) : M unit := fun self =>
  let self' := record_call (EvSpeak text) self in
  match tts svc (calls self) text with
  | Played => Some (Ret tt, self')
  | TTSError _ => Some (Ret tt, self')
  | SpeakCrash e => Some (Raise e, self')
  end.

(** *** Generation and the three chains *)

Definition generate_response (prompt : string) : M string := fun self =>
  let self' := record_call (EvGenerate prompt) self in
  match model svc (calls self) prompt with
  | GenText text => Some (Ret text, self')
  | GenNoText repr => Some (Ret repr, self')
  | GenError _ => Some (Ret fallback_text, self')
  end.

Definition remember (f : ConversationMemory -> ConversationMemory) : M unit :=
  fun self => Some (Ret tt, with_memory f self).

Definition run_greeting_chain : M string :=
  template ← _get_prompt_template "greeting";
  prompt ← _format_prompt template EmptyString;
  result ← generate_response prompt;
  remember (add_agent_message result);;
  mret result.

Definition run_conversation_chain (user_input : string) : M string :=
  remember (add_user_message user_input);;
  template ← _get_prompt_template "conversation";
  prompt ← _format_prompt template user_input;
  result ← generate_response prompt;
  remember (add_agent_message result);;
  mret result.

Definition run_farewell_chain : M string :=
  template ← _get_prompt_template "farewell";
  prompt ← _format_prompt template EmptyString;
  result ← generate_response prompt;
  remember (add_agent_message result);;
  mret result.

(** *** The call *)

Definition is_exit_command (user_input : string) : bool :=
  bool_decide (lower user_input ∈ exit_commands).

(** [while self.running: ...]; [fuel] bounds the number of iterations. *)
Fixpoint conversation_loop (fuel : nat) : M unit :=
  match fuel with
  | O => fun _ => None
  | S fuel' => fun self =>
      if running self then
        (user_input ← recognize_speech;
         if is_exit_command user_input then mret tt
         else if truthy user_input then
           (response ← run_conversation_chain user_input;
            speak response;;
            conversation_loop fuel')
         else conversation_loop fuel') self
      else Some (Ret tt, self)
  end.

(** The body of the [try] block. *)
Definition call_body (fuel : nat) : M unit :=
  greeting ← run_greeting_chain;
  speak greeting;;
  conversation_loop fuel;;
  farewell ← run_farewell_chain;
  speak farewell.

Definition end_call : M unit := fun self =>
  Some (Ret tt, with_running false self).

(** [try: ... except Exception as e: (log, print) finally: self.end_call()] *)
Definition start_call (fuel : nat) : M unit := fun self =>
  match call_body fuel (with_running true self) with
  | Some (Ret _, self') => end_call self'
  | Some (Raise _, self') => end_call self'
  | None => None
  end.

End Agent.

(** ** Notions used in the statements *)

(** The nine templates of the catalogue, and what a lookup can return. *)
Definition catalog_templates : list string :=
  [demo_greeting; demo_conversation; demo_farewell;
   interview_greeting; interview_conversation; interview_farewell;
   payment_greeting; payment_conversation; payment_farewell].

(** The keyword arguments filled from the profile and from the knowledge
    bucket, in the order [_format_prompt] lists them. *)
Definition profile_placeholders : list string :=
  ["name"; "company"; "role"; "interest_area"; "company_size"; "experience";
   "current_role"; "applied_for"].

Definition knowledge_placeholders : list string :=
  ["position"; "skills"; "experience_required"; "company_domain";
   "invoice_number"; "due_amount"; "days_late"; "payment_history"].

(** A plain field name: a letter or underscore, then letters, digits and
    underscores. *)
Fixpoint all_name_chars (s : string) : bool :=
  match s with
  | EmptyString => true
  | String c rest => is_name_char c && all_name_chars rest
  end.

Definition plain_name (s : string) : bool :=
  match s with
  | EmptyString => false
  | String c rest => is_name_start c && all_name_chars rest
  end.

(** The characters that end the argument name of a replacement field. *)
Definition is_special (c : ascii) : bool :=
  Ascii.eqb c "}"%char || Ascii.eqb c "{"%char || Ascii.eqb c "["%char
  || Ascii.eqb c "."%char || Ascii.eqb c "!"%char || Ascii.eqb c ":"%char.

(** The argument name of the field that a text opens: the text up to the
    first special character, or all of it. *)
Fixpoint arg_name (s : string) : string :=
  match s with
  | EmptyString => EmptyString
  | String c rest => if is_special c then EmptyString else String c (arg_name rest)
  end.

Fixpoint no_special (s : string) : bool :=
  match s with
  | EmptyString => true
  | String c rest => negb (is_special c) && no_special rest
  end.

(** The argument name of a field whose name part has been read. *)
Definition state_name (st : fmt_state) : option string :=
  match st with
  | InTail name _ | InConversion name | AfterConversion name | InSpec name _ =>
      Some name
  | _ => None
  end.

(** A name that [str.format] looks up among the keyword arguments: no
    special character, and an ASCII character that is not a digit. *)
Definition key_name (s : string) : bool := no_special s && has_key_char s.

Definition succeeds (r : option (outcome string)) : bool :=
  match r with
  | Some (Ret _) => true
  | _ => false
  end.

(** The prompt a phase sends to the model, for the agent's current state. *)
Definition prompt_text (phase user_input : string) (self : GeminiAgent) : string :=
  match str_format (catalog_lookup (scenario self) phase)
          (format_kwargs user_input self) with
  | Some (Ret prompt) => prompt
  | _ => EmptyString
  end.

(** What [generate_response] makes of the model's answer. *)
Definition response_text (r : generate_result) : string :=
  match r with
  | GenText text => text
  | GenNoText repr => repr
  | GenError _ => fallback_text
  end.

Definition recognition_failed (r : listen_result) : bool :=
  match r with
  | UnknownValueError | RequestError _ | WaitTimeoutError => true
  | Heard _ | ListenCrash _ => false
  end.

Definition lowercase (s : string) : Prop := lower s = s.

(** The lines of a text: the pieces that line feeds end, and what follows
    the last line feed when that is not empty. *)
Fixpoint text_lines_from (line s : string) : list string :=
  match s with
  | EmptyString => if truthy line then [line] else []
  | String c rest =>
      if Ascii.eqb c (ascii_of_nat 10) then line :: text_lines_from EmptyString rest
      else text_lines_from (line +:+ String c EmptyString) rest
  end.

Definition text_lines (s : string) : list string := text_lines_from EmptyString s.

Fixpoint has_newline (s : string) : bool :=
  match s with
  | EmptyString => false
  | String c rest => Ascii.eqb c (ascii_of_nat 10) || has_newline rest
  end.

Definition history_line (msg : message) : string :=
  (match msg_role msg with user => "Customer" | agent => "AI" end)
    +:+ ": " +:+ content msg.

Fixpoint concat_strings (l : list string) : string :=
  match l with
  | [] => EmptyString
  | s :: rest => s +:+ concat_strings rest
  end.

(** The state a chain leaves behind once the prompt of [phase] has been
    rendered in state [self]: the model is asked, its answer (or the
    fallback) is appended as an agent turn. *)
Definition after_generation (svc : Services) (phase user_input : string)
  (self : GeminiAgent) : string * GeminiAgent :=
  let prompt := prompt_text phase user_input self in
  let text := response_text (model svc (calls self) prompt) in
  (text, with_memory (add_agent_message text) (record_call (EvGenerate prompt) self)).

Definition user_turns_lowercase (self : GeminiAgent) : Prop :=
  Forall (fun m => msg_role m = user -> lowercase (content m))
    (messages (memory self)).

(** ** Concrete services for the examples *)

Definition count_listens (log : list event) : nat :=
  length (List.filter (fun ev => match ev with EvListen => true | _ => false end) log).

(** A microphone that answers the n-th [recognize_speech] with the n-th entry
    of a script and hears nothing afterwards; a model and a synthesiser that
    always work. *)
Definition scripted_services (script : list listen_result) : Services :=
  {| recognizer := fun log => nth (count_listens log) script WaitTimeoutError;
     model := fun _ _ => GenText "Namaste ji";
     tts := fun _ _ => Played |}.

(** The input device fails as soon as the agent starts listening. *)
Definition mic_down_services : Services :=
  scripted_services
    [ListenCrash (OtherError "OSError" "No Default Input Device Available")].

#[global] Instance event_eq_dec : EqDecision event.
Proof. solve_decision. Defined.

(** The customer says one sentence, then an exit command. *)
Definition one_turn_services : Services :=
  scripted_services [Heard "Kal 3 Baje THEEK hai"; Heard "Bye"].

(** The model is unreachable. *)
Definition model_down_services : Services :=
  {| recognizer := fun _ => Heard "bye";
     model := fun _ _ => GenError (OtherError "ServiceUnavailable" "503");
     tts := fun _ _ => Played |}.

(** The agent a demo call with [one_turn_services] leaves behind. *)
Definition one_turn_final : GeminiAgent :=
  Eval vm_compute in
    match start_call one_turn_services 2 (GeminiAgent_init "demo") with
    | Some (_, final) => final
    | None => GeminiAgent_init "demo"
    end.

(** The agent of an interview call once the greeting has been spoken. *)
Definition interview_greeted : GeminiAgent :=
  Eval vm_compute in
    match (greeting ← run_greeting_chain (scripted_services [Heard "Goodbye"]);
           speak (scripted_services [Heard "Goodbye"]) greeting)
            (with_running true (GeminiAgent_init "interview")) with
    | Some (_, spoken) => spoken
    | None => GeminiAgent_init "interview"
    end.

(** ** The rest of the program *)

(** *** Text helpers *)

(** ASCII white space as [str.strip] and the pattern [\s] see it: tab to
    carriage return, the four separators 28 to 31, and the space. *)
Definition is_space (c : ascii) : bool :=
  let n := nat_of_ascii c in
  ((9 <=? n) && (n <=? 13)) || ((28 <=? n) && (n <=? 32)).

Definition is_ascii_char (c : ascii) : bool := nat_of_ascii c <? 128.

Fixpoint is_ascii (s : string) : bool :=
  match s with
  | EmptyString => true
  | String c rest => is_ascii_char c && is_ascii rest
  end.

Fixpoint lstrip (s : string) : string :=
  match s with
  | EmptyString => EmptyString
  | String c rest => if is_space c then lstrip rest else s
  end.

Fixpoint rstrip (s : string) : string :=
  match s with
  | EmptyString => EmptyString
  | String c rest =>
      match rstrip rest with
      | EmptyString => if is_space c then EmptyString else String c EmptyString
      | kept => String c kept
      end
  end.

(** [str.strip()] on text without bytes above 127. *)
Definition strip (s : string) : string := rstrip (lstrip s).

(** What the pattern [[^\w\s.,!?-]] keeps of an ASCII character: word
    characters, white space and the six punctuation marks. *)
Definition is_speakable (c : ascii) : bool :=
  let n := nat_of_ascii c in
  is_name_char c || is_space c
  || (n =? 46) || (n =? 44) || (n =? 33) || (n =? 63) || (n =? 45).

Fixpoint keep_speakable (s : string) : string :=
  match s with
  | EmptyString => EmptyString
  | String c rest =>
      if is_speakable c then String c (keep_speakable rest) else keep_speakable rest
  end.

(** [re.sub(r'[^\w\s.,!?-]', '', text)]; characters outside ASCII need the
    Unicode tables and are beyond this embedding ([None]). *)
Definition clean_text (text : string) : option string :=
  if is_ascii text then Some (keep_speakable text) else None.

(** The same substitution on any text: what the regular-expression engine
    makes of text with characters outside ASCII is left to [re_sub]. *)
Definition cleaned_for (re_sub : string -> string) (text : string) : string :=
  match clean_text text with
  | Some cleaned => cleaned
  | None => re_sub text
  end.

(** [s.split('-')[0]] *)
Fixpoint before_dash (s : string) : string :=
  match s with
  | EmptyString => EmptyString
  | String c rest =>
      if Ascii.eqb c "-"%char then EmptyString else String c (before_dash rest)
  end.

(** *** [SpeechHandler.speak], step by step

    Every call into the regular-expression engine, the standard output,
    gTTS, pygame and [os] either returns or raises; the files of the
    working directory are a set of names.  The wait for the end of the
    playback is a loop of the method itself and has no bound.  The three
    answers of the [tts] oracle above are the three ways a run that ends
    can go: the method returns after a completed [try] block, it returns
    after a failure that was caught, or it raises. *)

Inductive step : Type :=
| Done
| Fails (e : exn).

Inductive save_step : Type :=
| Saved
| SaveFails (e : exn) (written : bool).

(** One round of the wait loop: the player is busy and the clock
    ticks, the player is idle, or one of the two calls raises. *)
Inductive poll : Type :=
| Busy
| Idle
| PollFails (e : exn).

Record AudioDevice : Type := {
  re_sub : string -> string;
  print_reply : string -> step;
  print_error : exn -> step;
  audio_file : string;
  gtts_new : string -> string -> bool -> string -> step;
  gtts_save : string -> save_step;
  music_load : string -> step;
  music_play : step;
  music_get_busy : nat -> poll;
  music_unload : step;
  os_remove : string -> step
}.

Record SpeechHandler : Type := {
  language : string;
  tld : string
}.

Definition SpeechHandler_init : SpeechHandler :=
  {| language := "en-IN"; tld := "co.in" |}.

(** [while pygame.mixer.music.get_busy(): pygame.time.Clock().tick(10)] *)
Fixpoint wait_playback (dev : AudioDevice) (fuel polls : nat) : option step :=
  match fuel with
  | O => None
  | S fuel' =>
      match music_get_busy dev polls with
      | Idle => Some Done
      | PollFails e => Some (Fails e)
      | Busy => wait_playback dev fuel' (S polls)
      end
  end.

(** The [try] block: what it ends with and the files it leaves. *)
Definition play_audio (dev : AudioDevice) (self : SpeechHandler) (fuel : nat)
  (cleaned_text : string) (slow : bool) (files : gset string)
  : option (step * gset string) :=
  let filename := audio_file dev in
  match gtts_new dev cleaned_text (before_dash (language self)) slow (tld self) with
  | Fails e => Some (Fails e, files)
  | Done =>
      match gtts_save dev filename with
      | SaveFails e written =>
          Some (Fails e, if written then {[filename]} ∪ files else files)
      | Saved =>
          let files' := {[filename]} ∪ files in
          match music_load dev filename with
          | Fails e => Some (Fails e, files')
          | Done =>
              match music_play dev with
              | Fails e => Some (Fails e, files')
              | Done =>
                  match wait_playback dev fuel 0 with
                  | Some r => Some (r, files')
                  | None => None
                  end
              end
          end
      end
  end.

(** The [finally] block. *)
Definition cleanup_audio (dev : AudioDevice) (files : gset string)
  : outcome unit * gset string :=
  let filename := audio_file dev in
  match music_unload dev with
  | Fails e => (Raise e, files)
  | Done =>
      if bool_decide (filename ∈ files) then
        match os_remove dev filename with
        | Done => (Ret tt, files ∖ {[filename]})
        | Fails e => (Raise e, files)
        end
      else (Ret tt, files)
  end.

(** The [except] clause: the failure is logged and printed; the printing
    may fail in its turn. *)
Definition report_failure (dev : AudioDevice) (r : step) : step :=
  match r with
  | Done => Done
  | Fails e => print_error dev e
  end.

(** [speak]: the cleaned text is printed, before the [try] statement;
    whatever the [try] block ends with is caught and printed; then the
    [finally] block runs, and an exception of its own replaces one of the
    [except] clause. *)
Definition speak_steps (dev : AudioDevice) (self : SpeechHandler) (fuel : nat)
  (text : string) (slow : bool) (files : gset string)
  : option (outcome unit * gset string) :=
  let cleaned_text := cleaned_for (re_sub dev) text in
  match print_reply dev cleaned_text with
  | Fails e => Some (Raise e, files)
  | Done =>
      match play_audio dev self fuel cleaned_text slow files with
      | Some (r, files') =>
          match cleanup_audio dev files' with
          | (Ret _, files'') =>
              match report_failure dev r with
              | Done => Some (Ret tt, files'')
              | Fails e => Some (Raise e, files'')
              end
          | (Raise e, files'') => Some (Raise e, files'')
          end
      | None => None
      end
  end.

(** *** [main] *)

Definition scenario_map : gmap string string :=
  <["1" := "demo"]> (<["2" := "interview"]> (<["3" := "payment"]> ∅)).

Inductive main_result : Type :=
| NoCall
| Called (o : outcome unit) (final : GeminiAgent).

Definition main (svc : Services) (fuel : nat) (line : string) : option main_result :=
  let choice := strip line in
  let scenario := scenario_map !! choice in
  if negb (match scenario with Some s => truthy s | None => false end) then
    Some NoCall
  else
    match start_call svc fuel (GeminiAgent_init (default EmptyString scenario)) with
    | Some (o, final) => Some (Called o final)
    | None => None
    end.

(** *** Notions used in the further statements *)

(** The names [str.format] resolves while scanning a template. *)
Fixpoint field_names_from (st : fmt_state) (t : string) : list string :=
  match t with
  | EmptyString => []
  | String c rest =>
      match scan_step st c with
      | Continue st' => field_names_from st' rest
      | Emit _ st' => field_names_from st' rest
      | EndSimple name => name :: field_names_from InText rest
      | EndComplex name => [name]
      | Fail _ => []
      end
  end.

Definition template_fields (template : string) : list string :=
  field_names_from InText template.

Fixpoint strip_prefix (p t : string) : option string :=
  match p with
  | EmptyString => Some t
  | String a p' =>
      match t with
      | EmptyString => None
      | String b t' => if Ascii.eqb a b then strip_prefix p' t' else None
      end
  end.

(** The text before and after the first occurrence of [needle]. *)
Fixpoint split_at (needle t : string) : option (string * string) :=
  match strip_prefix needle t with
  | Some rest => Some (EmptyString, rest)
  | None =>
      match t with
      | EmptyString => None
      | String c t' =>
          match split_at needle t' with
          | Some (pre, post) => Some (String c pre, post)
          | None => None
          end
      end
  end.

Definition field_text (name : string) : string :=
  String "{"%char (name +:+ String "}"%char EmptyString).

(** Keyword arguments with the names of [format_kwargs] and empty values. *)
Definition blank_kwargs : list (string * string) :=
  map (fun name => (name, EmptyString)) placeholder_names.

(** A piece of a template that formats on its own and has neither the
    history nor the user input among its fields: what it formats to is
    decided by the profile and the knowledge alone. *)
Definition is_dynamic (name : string) : bool :=
  String.eqb "conversation_history" name || String.eqb "user_input" name.

Definition fixed_piece (t : string) : bool :=
  succeeds (str_format t blank_kwargs)
  && forallb (fun name => negb (is_dynamic name)) (template_fields t).

(** The template is a fixed piece, the history placeholder, a fixed piece,
    the user-input placeholder, a fixed piece. *)
Definition has_history_then_input (template : string) : bool :=
  match split_at (field_text "conversation_history") template with
  | Some (pre, rest) =>
      match split_at (field_text "user_input") rest with
      | Some (mid, post) => fixed_piece pre && fixed_piece mid && fixed_piece post
      | None => false
      end
  | None => false
  end.

(** The template is a fixed piece, the history placeholder, a fixed piece. *)
Definition has_history (template : string) : bool :=
  match split_at (field_text "conversation_history") template with
  | Some (pre, post) => fixed_piece pre && fixed_piece post
  | None => false
  end.

(** What a piece of a template formats to for this agent. *)
Definition piece_text (t : string) (self : GeminiAgent) : string :=
  match str_format t (format_kwargs EmptyString self) with
  | Some (Ret s) => s
  | _ => EmptyString
  end.

Fixpoint string_forall (f : ascii -> bool) (s : string) : bool :=
  match s with
  | EmptyString => true
  | String c rest => f c && string_forall f rest
  end.

Definition count_if {A : Type} (f : A -> bool) (l : list A) : nat :=
  length (List.filter f l).

Definition is_agent_turn (m : message) : bool :=
  match msg_role m with agent => true | user => false end.

Definition is_user_turn (m : message) : bool :=
  match msg_role m with user => true | agent => false end.

Definition is_listen (ev : event) : bool :=
  match ev with EvListen => true | _ => false end.

Definition is_generate (ev : event) : bool :=
  match ev with EvGenerate _ => true | _ => false end.

Definition is_speak (ev : event) : bool :=
  match ev with EvSpeak _ => true | _ => false end.

(** Every user turn is directly followed by an agent turn. *)
Fixpoint well_paired (l : list message) : bool :=
  match l with
  | [] => true
  | m :: rest =>
      match msg_role m with
      | agent => well_paired rest
      | user =>
          match rest with
          | m' :: rest' => is_agent_turn m' && well_paired rest'
          | [] => false
          end
      end
  end.

(** The later agent has the scenario and context of the earlier one, and
    its history and its log of service calls continue the earlier ones. *)
Definition extends (before after : GeminiAgent) : Prop :=
  scenario after = scenario before
  /\ context (memory after) = context (memory before)
  /\ (exists added, messages (memory after) = messages (memory before) ++ added)
  /\ (exists new, calls after = calls before ++ new).

(** Between the two agents, as many agent turns were appended as the model
    was asked and as [speak] was called, and at most as many user turns as
    the agent listened. *)
Definition tallies (before after : GeminiAgent) : Prop :=
  count_if is_agent_turn (messages (memory after)) + count_if is_generate (calls before)
  = count_if is_agent_turn (messages (memory before)) + count_if is_generate (calls after)
  /\ count_if is_speak (calls after) + count_if is_generate (calls before)
     = count_if is_speak (calls before) + count_if is_generate (calls after)
  /\ count_if is_user_turn (messages (memory after)) + count_if is_listen (calls before)
     <= count_if is_user_turn (messages (memory before)) + count_if is_listen (calls after).

Definition paired_extension (before after : GeminiAgent) : Prop :=
  exists added,
    messages (memory after) = messages (memory before) ++ added
    /\ well_paired added = true.

(** The texts handed to [speak], and the texts of the agent turns. *)
Fixpoint spoken_texts (log : list event) : list string :=
  match log with
  | [] => []
  | EvSpeak text :: rest => text :: spoken_texts rest
  | _ :: rest => spoken_texts rest
  end.

Fixpoint agent_texts (l : list message) : list string :=
  match l with
  | [] => []
  | m :: rest =>
      match msg_role m with
      | agent => content m :: agent_texts rest
      | user => agent_texts rest
      end
  end.

(** What was spoken between the two agents is what was appended to the
    history as agent turns, in the same order. *)
Definition speech_mirrors_history (before after : GeminiAgent) : Prop :=
  exists added new,
    messages (memory after) = messages (memory before) ++ added
    /\ calls after = calls before ++ new
    /\ spoken_texts new = agent_texts added.

(** Nothing was recognised: one of the three failures, or an empty text. *)
Definition heard_nothing (r : listen_result) : Prop :=
  recognition_failed r = true \/ r = Heard EmptyString.

(** A customer who answers twice and then says goodbye, whatever is asked. *)
Definition polite_services : Services :=
  {| recognizer := fun log =>
       if count_listens log <? 2 then Heard "Haan ji" else Heard "Bye";
     model := fun _ _ => GenText "Namaste ji";
     tts := fun _ _ => Played |}.

(** A device on which synthesis is refused and everything else works. *)
Definition refusing_device : AudioDevice :=
  {| re_sub := keep_speakable;
     print_reply := fun _ => Done;
     print_error := fun _ => Done;
     audio_file := "response_0a1b2c3d.mp3";
     gtts_new := fun _ _ _ _ => Fails (OtherError "AssertionError" "No text to speak");
     gtts_save := fun _ => Saved;
     music_load := fun _ => Done;
     music_play := Done;
     music_get_busy := fun _ => Idle;
     music_unload := Done;
     os_remove := fun _ => Done |}.

(** A device that plays for three polls but cannot unload afterwards. *)
Definition stuck_device : AudioDevice :=
  {| re_sub := keep_speakable;
     print_reply := fun _ => Done;
     print_error := fun _ => Done;
     audio_file := "response_0a1b2c3d.mp3";
     gtts_new := fun _ _ _ _ => Done;
     gtts_save := fun _ => Saved;
     music_load := fun _ => Done;
     music_play := Done;
     music_get_busy := fun n => if n <? 3 then Busy else Idle;
     music_unload := Fails (OtherError "pygame.error" "mixer not initialized");
     os_remove := fun _ => Done |}.

(** A device whose player never stops being busy. *)
Definition endless_device : AudioDevice :=
  {| re_sub := keep_speakable;
     print_reply := fun _ => Done;
     print_error := fun _ => Done;
     audio_file := "response_0a1b2c3d.mp3";
     gtts_new := fun _ _ _ _ => Done;
     gtts_save := fun _ => Saved;
     music_load := fun _ => Done;
     music_play := Done;
     music_get_busy := fun _ => Busy;
     music_unload := Done;
     os_remove := fun _ => Done |}.

(** A console that cannot encode what it is asked to print. *)
Definition narrow_console_device : AudioDevice :=
  {| re_sub := fun text => text;
     print_reply := fun text =>
       if is_ascii text then Done
       else Fails (OtherError "UnicodeEncodeError" "'ascii' codec can't encode");
     print_error := fun _ => Done;
     audio_file := "response_0a1b2c3d.mp3";
     gtts_new := fun _ _ _ _ => Done;
     gtts_save := fun _ => Saved;
     music_load := fun _ => Done;
     music_play := Done;
     music_get_busy := fun _ => Idle;
     music_unload := Done;
     os_remove := fun _ => Done |}.

(** ** The call, with [str.lower] and the end of the playback left open

    [lower] above is [str.lower] on ASCII text, and [speak] above always
    returns.  In the code the transcription may hold any character, and the
    wait for the end of the playback has no bound.  The definitions of this
    section are the same methods with both left open: [str_lower] stands
    for the interpreter's [str.lower], and [hangs log text] says that the
    playback of [text], started after the service calls [log], never
    ends. *)

(** [str.lower]: [lower] on ASCII text; the Unicode case mapping of other
    text is left to [unicode_lower]. *)
Definition python_lower (unicode_lower : string -> string) (s : string) : string :=
  if is_ascii s then lower s else unicode_lower s.

Section OpenAgent.

Variable str_lower : string -> string.
Variable hangs : list event -> string -> bool.
Variable svc : Services.

Definition recognize_speech_with : M string := fun self =>
  let self' := record_call EvListen self in
  match recognizer svc (calls self) with
  | Heard text => Some (Ret (str_lower text), self')
  | UnknownValueError => Some (Ret EmptyString, self')
  | RequestError _ => Some (Ret EmptyString, self')
  | WaitTimeoutError => Some (Ret EmptyString, self')
  | ListenCrash e => Some (Raise e, self')
  end.

Definition speak_with (text : string) : M unit := fun self =>
  if hangs (calls self) text then None else speak svc text self.

Definition is_exit_command_with (user_input : string) : bool :=
  bool_decide (str_lower user_input ∈ exit_commands).

Fixpoint conversation_loop_with (fuel : nat) : M unit :=
  match fuel with
  | O => fun _ => None
  | S fuel' => fun self =>
      if running self then
        (user_input ← recognize_speech_with;
         if is_exit_command_with user_input then mret tt
         else if truthy user_input then
           (response ← run_conversation_chain svc user_input;
            speak_with response;;
            conversation_loop_with fuel')
         else conversation_loop_with fuel') self
      else Some (Ret tt, self)
  end.

Definition call_body_with (fuel : nat) : M unit :=
  greeting ← run_greeting_chain svc;
  speak_with greeting;;
  conversation_loop_with fuel;;
  farewell ← run_farewell_chain svc;
  speak_with farewell.

Definition start_call_with (fuel : nat) : M unit := fun self =>
  match call_body_with fuel (with_running true self) with
  | Some (Ret _, self') => end_call self'
  | Some (Raise _, self') => end_call self'
  | None => None
  end.



End OpenAgent.

(** No playback hangs. *)
Definition never_hangs : list event -> string -> bool := fun _ _ => false.

(** No letter from A to Z occurs in the text. *)
Definition is_upper_letter (c : ascii) : bool :=
  let n := nat_of_ascii c in (65 <=? n) && (n <=? 90).

Fixpoint no_uppercase (s : string) : bool :=
  match s with
  | EmptyString => true
  | String c rest => negb (is_upper_letter c) && no_uppercase rest
  end.

(** A synthesiser on which the playback of the greeting never ends. *)
Definition first_playback_hangs : list event -> string -> bool :=
  fun log _ => bool_decide (count_if is_speak log = 0).

(** * Properties *)

(** ** Strings *)

Lemma string_app_nil_l (s : string) : EmptyString +:+ s = s.
Proof. reflexivity. Qed.

Lemma string_app_cons (c : ascii) (a b : string) :
  String c a +:+ b = String c (a +:+ b).
Proof. reflexivity. Qed.

Lemma string_app_nil_r (s : string) : s +:+ EmptyString = s.
Proof.
  induction s as [|c s IH]; [reflexivity|].
  now rewrite string_app_cons, IH.
Qed.

Lemma string_app_assoc (a b c : string) : (a +:+ b) +:+ c = a +:+ (b +:+ c).
Proof.
  induction a as [|x a IH]; [reflexivity|].
  now rewrite !string_app_cons, IH.
Qed.

Lemma lower_ascii_idem (c : ascii) : lower_ascii (lower_ascii c) = lower_ascii c.
Proof. destruct c as [[] [] [] [] [] [] [] []]; reflexivity. Qed.

Lemma lower_idem (s : string) : lower (lower s) = lower s.
Proof.
  induction s as [|c s IH]; simpl; [reflexivity|].
  now rewrite lower_ascii_idem, IH.
Qed.

(** ** The history rendering as a concatenation *)

Lemma fold_history_acc (l : list message) (acc : string) :
  fold_left (fun history msg => history +:+ history_entry msg) l acc
  = acc +:+ concat_strings (map history_entry l).
Proof.
  revert acc; induction l as [|m l IH]; intros acc; simpl.
  - now rewrite string_app_nil_r.
  - rewrite IH. apply string_app_assoc.
Qed.

Lemma history_is_concat (mem : ConversationMemory) :
  get_conversation_history mem = concat_strings (map history_entry (messages mem)).
Proof. unfold get_conversation_history. now rewrite fold_history_acc. Qed.

Lemma concat_strings_app (l1 l2 : list string) :
  concat_strings (l1 ++ l2) = concat_strings l1 +:+ concat_strings l2.
Proof.
  induction l1 as [|s l1 IH]; simpl; [reflexivity|].
  now rewrite IH, string_app_assoc.
Qed.

Lemma text_lines_from_line (line s rest : string) :
  has_newline s = false ->
  text_lines_from line (s +:+ newline +:+ rest)
  = (line +:+ s) :: text_lines_from EmptyString rest.
Proof.
  revert line; induction s as [|c s IH]; intros line Hs.
  - rewrite string_app_nil_l, string_app_nil_r. reflexivity.
  - simpl in Hs. apply orb_false_iff in Hs as [Hc Hs].
    rewrite string_app_cons. simpl. rewrite Hc, IH by assumption.
    now rewrite string_app_assoc.
Qed.

Lemma has_newline_app (a b : string) :
  has_newline (a +:+ b) = has_newline a || has_newline b.
Proof.
  induction a as [|c a IH]; [reflexivity|].
  rewrite string_app_cons. simpl. now rewrite IH, orb_assoc.
Qed.

Lemma history_line_no_newline (m : message) :
  has_newline (content m) = false -> has_newline (history_line m) = false.
Proof.
  intros H. unfold history_line.
  rewrite !has_newline_app, H. now destruct (msg_role m).
Qed.

Lemma history_entry_line (m : message) :
  history_entry m = history_line m +:+ newline.
Proof. unfold history_entry, history_line. now rewrite !string_app_assoc. Qed.

Lemma text_lines_entries (l : list message) :
  Forall (fun m => has_newline (content m) = false) l ->
  text_lines (concat_strings (map history_entry l)) = map history_line l.
Proof.
  unfold text_lines. induction 1 as [|m l Hm Hl IH]; simpl; [reflexivity|].
  rewrite history_entry_line, string_app_assoc.
  rewrite text_lines_from_line by now apply history_line_no_newline.
  now rewrite IH.
Qed.

(** ** [str.format] *)

Lemma is_special_false (c : ascii) :
  is_special c = false ->
  Ascii.eqb c "}"%char = false /\ Ascii.eqb c "{"%char = false
  /\ Ascii.eqb c "["%char = false /\ Ascii.eqb c "."%char = false
  /\ Ascii.eqb c "!"%char = false /\ Ascii.eqb c ":"%char = false.
Proof.
  unfold is_special. intros H.
  repeat (apply orb_false_iff in H as [H ?]). repeat split; assumption.
Qed.

Lemma name_step_ordinary (name : string) (c : ascii) :
  is_special c = false ->
  name_step name c = Continue (InField (name +:+ String c EmptyString)).
Proof.
  intros H. apply is_special_false in H as (H1 & H2 & H3 & H4 & H5 & H6).
  unfold name_step. now rewrite H1, H2, H3, H4, H5, H6.
Qed.

Lemma name_char_not_special (c : ascii) : is_name_char c = true -> is_special c = false.
Proof. destruct c as [[] [] [] [] [] [] [] []]; vm_compute; congruence. Qed.

Lemma name_start_key_char (c : ascii) :
  is_name_start c = true ->
  is_name_char c = true /\ (nat_of_ascii c <? 128) && negb (is_digit c) = true.
Proof. destruct c as [[] [] [] [] [] [] [] []]; vm_compute; intuition congruence. Qed.

Lemma all_name_chars_no_special (s : string) :
  all_name_chars s = true -> no_special s = true.
Proof.
  induction s as [|c s IH]; simpl; [reflexivity|].
  intros H. apply andb_true_iff in H as [Hc Hs].
  now rewrite (name_char_not_special c Hc), IH.
Qed.

Lemma plain_name_key_name (s : string) : plain_name s = true -> key_name s = true.
Proof.
  destruct s as [|c s]; [discriminate|]. simpl. intros H.
  apply andb_true_iff in H as [Hc Hs].
  destruct (name_start_key_char c Hc) as [Hchar Hkey].
  unfold key_name. simpl.
  now rewrite (name_char_not_special c Hchar), (all_name_chars_no_special s Hs), Hkey.
Qed.

Lemma kwargs_get_in (kwargs : list (string * string)) (name : string) :
  In name (map fst kwargs) -> exists v, kwargs_get kwargs name = Some v.
Proof.
  induction kwargs as [|[k v] kwargs IH]; simpl; [tauto|].
  intros [-> | Hin].
  - rewrite String.eqb_refl. eauto.
  - destruct (String.eqb k name); eauto.
Qed.

Lemma kwargs_get_not_in (kwargs : list (string * string)) (name : string) :
  ~ In name (map fst kwargs) -> kwargs_get kwargs name = None.
Proof.
  induction kwargs as [|[k v] kwargs IH]; simpl; [reflexivity|].
  intros Hn. destruct (String.eqb_spec k name) as [->|_]; [tauto|].
  apply IH. tauto.
Qed.

Lemma kwargs_get_same_keys (kw1 kw2 : list (string * string)) (name : string) :
  map fst kw1 = map fst kw2 ->
  (exists v1 v2, kwargs_get kw1 name = Some v1 /\ kwargs_get kw2 name = Some v2)
  \/ (kwargs_get kw1 name = None /\ kwargs_get kw2 name = None).
Proof.
  intros Hkeys.
  destruct (in_dec string_dec name (map fst kw1)) as [Hin|Hout].
  - left. destruct (kwargs_get_in kw1 name Hin) as [v1 H1].
    rewrite Hkeys in Hin. destruct (kwargs_get_in kw2 name Hin) as [v2 H2]. eauto.
  - right. split; [now apply kwargs_get_not_in|].
    rewrite Hkeys in Hout. now apply kwargs_get_not_in.
Qed.

Lemma succeeds_emit (c : ascii) r : succeeds (emit c r) = succeeds r.
Proof. now destruct r as [[?|?]|]. Qed.

Lemma succeeds_emit_str (v : string) r : succeeds (emit_str v r) = succeeds r.
Proof. now destruct r as [[?|?]|]. Qed.

Lemma emit_str_nil r : emit_str EmptyString r = r.
Proof. now destruct r as [[?|?]|]. Qed.

Lemma emit_emit_str (c : ascii) (s : string) r :
  emit c (emit_str s r) = emit_str (String c s) r.
Proof. now destruct r as [[?|?]|]. Qed.

Lemma emit_str_emit_str (v s : string) r :
  emit_str v (emit_str s r) = emit_str (v +:+ s) r.
Proof. destruct r as [[?|?]|]; simpl; [|reflexivity..]. now rewrite string_app_assoc. Qed.

Lemma emit_inv (c : ascii) r (s : string) :
  emit c r = Some (Ret s) -> exists s', r = Some (Ret s') /\ s = String c s'.
Proof. destruct r as [[?|?]|]; simpl; intros H; inversion H; eauto. Qed.

Lemma emit_str_inv (v : string) r (s : string) :
  emit_str v r = Some (Ret s) -> exists s', r = Some (Ret s') /\ s = v +:+ s'.
Proof. destruct r as [[?|?]|]; simpl; intros H; inversion H; eauto. Qed.

Lemma resolve_same_keys (kw1 kw2 : list (string * string)) (name : string) :
  map fst kw1 = map fst kw2 ->
  succeeds (resolve_field kw1 name) = succeeds (resolve_field kw2 name).
Proof.
  intros Hkeys. unfold resolve_field.
  destruct name as [|c name]; [reflexivity|].
  destruct (kwargs_get_same_keys kw1 kw2 (String c name) Hkeys)
    as [(v1 & v2 & -> & ->) | [-> ->]];
    destruct (has_key_char _); try reflexivity;
    destruct (all_digits _); try reflexivity;
    destruct (_ <=? _); reflexivity.
Qed.

Lemma end_complex_fails (kwargs : list (string * string)) (name : string) :
  succeeds (end_complex kwargs name) = false.
Proof. unfold end_complex. now destruct (resolve_field kwargs name) as [[?|?]|]. Qed.

(** Whether formatting succeeds depends on the keyword names only, not on
    the values bound to them. *)
Lemma format_from_same_keys (kw1 kw2 : list (string * string)) :
  map fst kw1 = map fst kw2 ->
  forall t st, succeeds (format_from kw1 st t) = succeeds (format_from kw2 st t).
Proof.
  intros Hkeys t; induction t as [|c t IH]; intros st; [reflexivity|].
  simpl. destruct (scan_step st c) as [st' | c' st' | name | name | e].
  - apply IH.
  - rewrite !succeeds_emit. apply IH.
  - unfold end_simple.
    pose proof (resolve_same_keys kw1 kw2 name Hkeys) as Hres.
    destruct (resolve_field kw1 name) as [[v1|e1]|];
      destruct (resolve_field kw2 name) as [[v2|e2]|]; try discriminate;
      try reflexivity.
    rewrite !succeeds_emit_str. apply IH.
  - now rewrite !end_complex_fails.
  - reflexivity.
Qed.

(** A prefix that formats on its own leaves the scanner in text mode. *)
Lemma format_from_app (kwargs : list (string * string)) (rest : string) :
  forall pre st s,
    format_from kwargs st pre = Some (Ret s) ->
    format_from kwargs st (pre +:+ rest)
    = emit_str s (format_from kwargs InText rest).
Proof.
  induction pre as [|c pre IH]; intros st s H.
  - destruct st; simpl in H; inversion H.
    rewrite string_app_nil_l. now rewrite emit_str_nil.
  - rewrite string_app_cons. simpl in H |- *.
    destruct (scan_step st c) as [st' | c' st' | name | name | e].
    + now apply IH.
    + apply emit_inv in H as (s' & H & ->).
      rewrite (IH _ _ H). apply emit_emit_str.
    + unfold end_simple in *.
      destruct (resolve_field kwargs name) as [[v|e]|]; try discriminate.
      apply emit_str_inv in H as (s' & H & ->).
      rewrite (IH _ _ H). apply emit_str_emit_str.
    + pose proof (end_complex_fails kwargs name) as Hfail.
      rewrite H in Hfail. discriminate.
    + discriminate.
Qed.

(** Scanning the characters of an argument name. *)
Lemma format_from_name (kwargs : list (string * string)) (rest : string) :
  forall x acc,
    no_special x = true ->
    format_from kwargs (InField acc) (x +:+ rest)
    = format_from kwargs (InField (acc +:+ x)) rest.
Proof.
  induction x as [|c x IH]; intros acc Hx.
  - now rewrite string_app_nil_l, string_app_nil_r.
  - simpl in Hx. apply andb_true_iff in Hx as [Hc Hx].
    apply negb_true_iff in Hc.
    rewrite string_app_cons. simpl. rewrite (name_step_ordinary acc c Hc).
    rewrite (IH _ Hx). now rewrite string_app_assoc.
Qed.

Lemma resolve_key_name (kwargs : list (string * string)) (name : string) :
  has_key_char name = true ->
  resolve_field kwargs name
  = match kwargs_get kwargs name with
    | Some v => Some (Ret v)
    | None => Some (Raise (KeyError name))
    end.
Proof.
  intros H. unfold resolve_field. destruct name; [discriminate|]. now rewrite H.
Qed.

Lemma format_key_field (kwargs : list (string * string)) (x post : string) :
  key_name x = true ->
  format_from kwargs InText (String "{"%char (x +:+ String "}"%char post))
  = match kwargs_get kwargs x with
    | Some v => emit_str v (format_from kwargs InText post)
    | None => Some (Raise (KeyError x))
    end.
Proof.
  unfold key_name. intros H. apply andb_true_iff in H as [Hplain Hkey].
  destruct x as [|c x]; [discriminate|].
  simpl in Hplain. apply andb_true_iff in Hplain as [Hc Hx].
  apply negb_true_iff in Hc.
  destruct (is_special_false c Hc) as (_ & Hopen & _).
  rewrite string_app_cons.
  change (format_from kwargs InText (String "{"%char (String c (x +:+ String "}"%char post))))
    with (match scan_step AfterOpen c with
          | Continue st' => format_from kwargs st' (x +:+ String "}"%char post)
          | Emit c' st' => emit c' (format_from kwargs st' (x +:+ String "}"%char post))
          | EndSimple name =>
              end_simple kwargs name
                (format_from kwargs InText (x +:+ String "}"%char post))
          | EndComplex name => end_complex kwargs name
          | Fail e => Some (Raise e)
          end).
  unfold scan_step. rewrite Hopen, (name_step_ordinary EmptyString c Hc).
  rewrite string_app_nil_l, (format_from_name kwargs _ x _ Hx).
  rewrite string_app_cons, string_app_nil_l.
  change (format_from kwargs (InField (String c x)) (String "}"%char post))
    with (end_simple kwargs (String c x) (format_from kwargs InText post)).
  unfold end_simple. rewrite (resolve_key_name kwargs _ Hkey).
  now destruct (kwargs_get kwargs (String c x)).
Qed.

Lemma format_plain_field (kwargs : list (string * string)) (x post : string) :
  plain_name x = true ->
  format_from kwargs InText (String "{"%char (x +:+ String "}"%char post))
  = match kwargs_get kwargs x with
    | Some v => emit_str v (format_from kwargs InText post)
    | None => Some (Raise (KeyError x))
    end.
Proof. intros H. apply format_key_field. now apply plain_name_key_name. Qed.

(** A field whose argument name is no keyword raises, whatever follows. *)
Lemma resolve_unknown (kwargs : list (string * string)) (name : string) :
  kwargs_get kwargs name = None ->
  exists e, resolve_field kwargs name = Some (Raise e).
Proof.
  intros Hnone. unfold resolve_field. destruct name as [|c name]; [eauto|].
  rewrite Hnone. destruct (has_key_char _); [eauto|].
  destruct (all_digits _); [|eauto]. destruct (_ <=? _); eauto.
Qed.

Lemma scan_step_complex (st : fmt_state) (name : string) (c : ascii) :
  state_name st = Some name ->
  (exists st', scan_step st c = Continue st' /\ state_name st' = Some name)
  \/ scan_step st c = EndComplex name
  \/ exists e, scan_step st c = Fail e.
Proof.
  destruct st as [| | | n | n b | n | n | n d]; simpl; try discriminate;
    intros [= ->].
  - destruct b; [left; eauto|].
    repeat (destruct (Ascii.eqb c _); [eauto 6|]). left; eauto.
  - left; eauto.
  - repeat (destruct (Ascii.eqb c _); [eauto 6|]). eauto.
  - destruct (Ascii.eqb c _); [left; eauto|].
    destruct (Ascii.eqb c _); [|left; eauto].
    destruct d; [eauto|left; eauto].
Qed.

Lemma format_from_complex_raises (kwargs : list (string * string)) (name : string) :
  kwargs_get kwargs name = None ->
  forall t st, state_name st = Some name ->
    exists e, format_from kwargs st t = Some (Raise e).
Proof.
  intros Hnone. induction t as [|c t IH]; intros st Hst.
  - destruct st; try discriminate; simpl; eauto.
  - simpl. destruct (scan_step_complex st name c Hst)
      as [(st' & -> & Hst') | [-> | [e ->]]].
    + now apply IH.
    + unfold end_complex. destruct (resolve_unknown kwargs name Hnone) as [e ->]. eauto.
    + eauto.
Qed.

Lemma format_from_field_raises (kwargs : list (string * string)) :
  forall t acc,
    kwargs_get kwargs (acc +:+ arg_name t) = None ->
    exists e, format_from kwargs (InField acc) t = Some (Raise e).
Proof.
  induction t as [|c t IH]; intros acc Hnone; [simpl; eauto|].
  simpl in Hnone. destruct (is_special c) eqn:Hc.
  - rewrite string_app_nil_r in Hnone.
    change (format_from kwargs (InField acc) (String c t))
      with (match name_step acc c with
            | Continue st' => format_from kwargs st' t
            | Emit c' st' => emit c' (format_from kwargs st' t)
            | EndSimple name => end_simple kwargs name (format_from kwargs InText t)
            | EndComplex name => end_complex kwargs name
            | Fail e => Some (Raise e)
            end).
    unfold name_step.
    destruct (Ascii.eqb c "}"%char) eqn:E1.
    { unfold end_simple. destruct (resolve_unknown kwargs acc Hnone) as [e ->]. eauto. }
    destruct (Ascii.eqb c "{"%char) eqn:E2; [eauto|].
    destruct (Ascii.eqb c "["%char) eqn:E3;
      [now apply (format_from_complex_raises kwargs acc Hnone)|].
    destruct (Ascii.eqb c "."%char) eqn:E4;
      [now apply (format_from_complex_raises kwargs acc Hnone)|].
    destruct (Ascii.eqb c "!"%char) eqn:E5;
      [now apply (format_from_complex_raises kwargs acc Hnone)|].
    destruct (Ascii.eqb c ":"%char) eqn:E6;
      [now apply (format_from_complex_raises kwargs acc Hnone)|].
    unfold is_special in Hc. rewrite E1, E2, E3, E4, E5, E6 in Hc. discriminate.
  - change (format_from kwargs (InField acc) (String c t))
      with (match name_step acc c with
            | Continue st' => format_from kwargs st' t
            | Emit c' st' => emit c' (format_from kwargs st' t)
            | EndSimple name => end_simple kwargs name (format_from kwargs InText t)
            | EndComplex name => end_complex kwargs name
            | Fail e => Some (Raise e)
            end).
    rewrite (name_step_ordinary acc c Hc). apply IH.
    rewrite string_app_assoc, string_app_cons, string_app_nil_l. exact Hnone.
Qed.

(** An opening brace that does not start [{{] opens a field; if the
    argument name of that field is no keyword, formatting raises. *)
Lemma format_from_open_raises (kwargs : list (string * string)) (after : string) :
  String.get 0 after <> Some "{"%char ->
  kwargs_get kwargs (arg_name after) = None ->
  exists e, format_from kwargs InText (String "{"%char after) = Some (Raise e).
Proof.
  intros Hopen Hnone. destruct after as [|c t]; [simpl; eauto|].
  change (format_from kwargs InText (String "{"%char (String c t)))
    with (match scan_step AfterOpen c with
          | Continue st' => format_from kwargs st' t
          | Emit c' st' => emit c' (format_from kwargs st' t)
          | EndSimple name => end_simple kwargs name (format_from kwargs InText t)
          | EndComplex name => end_complex kwargs name
          | Fail e => Some (Raise e)
          end).
  unfold scan_step.
  destruct (Ascii.eqb_spec c "{"%char) as [->|_]; [now elim Hopen|].
  apply (format_from_field_raises kwargs (String c t) EmptyString).
  now rewrite string_app_nil_l.
Qed.

Lemma emit_str_raise (v : string) (e : exn) :
  emit_str v (Some (Raise e)) = Some (Raise e).
Proof. reflexivity. Qed.

(** ** The catalogue *)

Lemma format_kwargs_names (user_input : string) (self : GeminiAgent) :
  map fst (format_kwargs user_input self) = placeholder_names.
Proof. reflexivity. Qed.

Lemma catalog_lookup_spec (scenario phase : string) :
  catalog_lookup scenario phase =
    let pick g c f :=
      if decide (phase = "greeting") then g
      else if decide (phase = "conversation") then c
      else if decide (phase = "farewell") then f else EmptyString in
    if decide (scenario = "demo") then
      pick demo_greeting demo_conversation demo_farewell
    else if decide (scenario = "interview") then
      pick interview_greeting interview_conversation interview_farewell
    else if decide (scenario = "payment") then
      pick payment_greeting payment_conversation payment_farewell
    else EmptyString.
Proof.
  unfold catalog_lookup, dict_get, templates.
  repeat (rewrite lookup_insert; case_decide; subst; simpl);
    repeat case_decide; try congruence; try reflexivity.
Qed.

Lemma catalog_lookup_cases (scenario phase : string) :
  (in_catalog scenario phase /\ catalog_lookup scenario phase ∈ catalog_templates)
  \/ (~ in_catalog scenario phase /\ catalog_lookup scenario phase = EmptyString).
Proof.
  rewrite catalog_lookup_spec.
  unfold in_catalog, scenarios, phases, catalog_templates.
  rewrite !list_elem_of_In. cbv zeta.
  repeat case_decide; subst;
    first [ left; simpl; tauto
          | right; simpl; intuition congruence ].
Qed.

(** Every template the lookup can return formats, whatever the values. *)
Lemma catalog_formats (scenario phase user_input : string) (self : GeminiAgent) :
  succeeds (str_format (catalog_lookup scenario phase)
              (format_kwargs user_input self)) = true.
Proof.
  unfold str_format.
  rewrite (format_from_same_keys (format_kwargs user_input self)
             (map (fun n => (n, EmptyString)) placeholder_names))
    by reflexivity.
  rewrite catalog_lookup_spec. cbv zeta.
  repeat case_decide; vm_compute; reflexivity.
Qed.

Lemma format_prompt_catalog (phase user_input : string) (self : GeminiAgent) :
  _format_prompt (catalog_lookup (scenario self) phase) user_input self
  = Some (Ret (prompt_text phase user_input self), self).
Proof.
  unfold _format_prompt, prompt_text.
  pose proof (catalog_formats (scenario self) phase user_input self) as H.
  destruct (str_format _ _) as [[p|e]|]; simpl in H; congruence.
Qed.

Lemma format_prompt_frame (template user_input : string) (self self' : GeminiAgent) o :
  _format_prompt template user_input self = Some (o, self') -> self' = self.
Proof.
  unfold _format_prompt. destruct (str_format _ _); intros H; inversion H. reflexivity.
Qed.

(** ** The agent's methods *)

Section AgentProperties.

Variable svc : Services.

Lemma generate_response_eq (prompt : string) (self : GeminiAgent) :
  generate_response svc prompt self
  = Some (Ret (response_text (model svc (calls self) prompt)),
          record_call (EvGenerate prompt) self).
Proof.
  unfold generate_response, response_text.
  destruct (model svc (calls self) prompt); reflexivity.
Qed.

Lemma run_greeting_chain_eq (self : GeminiAgent) :
  run_greeting_chain svc self
  = Some (Ret (after_generation svc "greeting" EmptyString self).1,
          (after_generation svc "greeting" EmptyString self).2).
Proof.
  unfold run_greeting_chain, mbind, M_bind, _get_prompt_template.
  rewrite format_prompt_catalog, generate_response_eq. reflexivity.
Qed.

Lemma run_farewell_chain_eq (self : GeminiAgent) :
  run_farewell_chain svc self
  = Some (Ret (after_generation svc "farewell" EmptyString self).1,
          (after_generation svc "farewell" EmptyString self).2).
Proof.
  unfold run_farewell_chain, mbind, M_bind, _get_prompt_template.
  rewrite format_prompt_catalog, generate_response_eq. reflexivity.
Qed.

Lemma run_conversation_chain_eq (user_input : string) (self : GeminiAgent) :
  let heard := with_memory (add_user_message user_input) self in
  run_conversation_chain svc user_input self
  = Some (Ret (after_generation svc "conversation" user_input heard).1,
          (after_generation svc "conversation" user_input heard).2).
Proof.
  intros heard.
  unfold run_conversation_chain, mbind, M_bind, remember, _get_prompt_template.
  change (scenario (with_memory (add_user_message user_input) self))
    with (scenario heard).
  fold heard.
  rewrite format_prompt_catalog, generate_response_eq. reflexivity.
Qed.

Lemma recognize_speech_lowercase (self self' : GeminiAgent) (u : string) :
  recognize_speech svc self = Some (Ret u, self') ->
  lowercase u /\ self' = record_call EvListen self.
Proof.
  unfold recognize_speech, lowercase.
  destruct (recognizer svc (calls self)); intros H; inversion H; subst;
    split; auto using lower_idem.
Qed.

Lemma speak_frame (text : string) (self self' : GeminiAgent) o :
  speak svc text self = Some (o, self') -> self' = record_call (EvSpeak text) self.
Proof.
  unfold speak. destruct (tts svc (calls self) text); intros H; inversion H; reflexivity.
Qed.

Lemma speak_total (text : string) (self : GeminiAgent) :
  exists o, speak svc text self = Some (o, record_call (EvSpeak text) self).
Proof. unfold speak. destruct (tts svc (calls self) text); eauto. Qed.

Lemma conversation_loop_S (fuel : nat) (self : GeminiAgent) :
  conversation_loop svc (S fuel) self
  = if running self then
      (user_input ← recognize_speech svc;
       if is_exit_command user_input then mret tt
       else if truthy user_input then
         (response ← run_conversation_chain svc user_input;
          speak svc response;;
          conversation_loop svc fuel)
       else conversation_loop svc fuel) self
    else Some (Ret tt, self).
Proof. reflexivity. Qed.

(** One iteration of the loop when an exit command was heard. *)
Lemma conversation_loop_exit (fuel : nat) (self : GeminiAgent) (raw : string) :
  running self = true ->
  recognizer svc (calls self) = Heard raw ->
  lower raw ∈ exit_commands ->
  conversation_loop svc (S fuel) self = Some (Ret tt, record_call EvListen self).
Proof.
  intros Hrun Hrec Hexit. rewrite conversation_loop_S, Hrun.
  unfold mbind, M_bind, recognize_speech. rewrite Hrec.
  unfold is_exit_command. rewrite lower_idem.
  now rewrite bool_decide_eq_true_2.
Qed.

(** One iteration when something else was heard: a turn, then the loop
    goes on unless [speak] lets an exception escape. *)
Lemma conversation_loop_turn (fuel : nat) (self : GeminiAgent) (raw : string) :
  running self = true ->
  recognizer svc (calls self) = Heard raw ->
  lower raw ∉ exit_commands ->
  raw <> EmptyString ->
  let heard := with_memory (add_user_message (lower raw)) (record_call EvListen self) in
  let text := (after_generation svc "conversation" (lower raw) heard).1 in
  let answered := (after_generation svc "conversation" (lower raw) heard).2 in
  conversation_loop svc (S fuel) self
  = match tts svc (calls answered) text with
    | SpeakCrash e => Some (Raise e, record_call (EvSpeak text) answered)
    | _ => conversation_loop svc fuel (record_call (EvSpeak text) answered)
    end.
Proof.
  intros Hrun Hrec Hexit Hne heard text answered.
  rewrite conversation_loop_S, Hrun.
  unfold mbind at 1, M_bind at 1, recognize_speech. rewrite Hrec.
  unfold is_exit_command. rewrite lower_idem.
  rewrite bool_decide_eq_false_2 by assumption.
  assert (truthy (lower raw) = true) as ->
    by (destruct raw; [congruence | reflexivity]).
  unfold mbind, M_bind.
  rewrite run_conversation_chain_eq. fold heard. fold text. fold answered.
  unfold speak. destruct (tts svc (calls answered) text); reflexivity.
Qed.

(** One iteration when nothing was recognised. *)
Lemma conversation_loop_skip (fuel : nat) (self : GeminiAgent) :
  running self = true ->
  recognize_speech svc self = Some (Ret EmptyString, record_call EvListen self) ->
  conversation_loop svc (S fuel) self
  = conversation_loop svc fuel (record_call EvListen self).
Proof.
  intros Hrun Hrec. rewrite conversation_loop_S, Hrun.
  unfold mbind, M_bind. rewrite Hrec. reflexivity.
Qed.

Lemma recognize_speech_nothing (self : GeminiAgent) :
  recognition_failed (recognizer svc (calls self)) = true
  \/ recognizer svc (calls self) = Heard EmptyString ->
  recognize_speech svc self = Some (Ret EmptyString, record_call EvListen self).
Proof.
  unfold recognize_speech.
  intros [H | ->]; [|reflexivity].
  destruct (recognizer svc (calls self)); try discriminate; reflexivity.
Qed.

Lemma recognize_speech_frame (self self' : GeminiAgent) o :
  recognize_speech svc self = Some (o, self') -> self' = record_call EvListen self.
Proof.
  unfold recognize_speech.
  destruct (recognizer svc (calls self)); intros H; inversion H; reflexivity.
Qed.

(** [fuel] only bounds the number of iterations: more fuel never changes
    a result. *)
Lemma conversation_loop_more_fuel (fuel : nat) :
  forall self r,
    conversation_loop svc fuel self = Some r ->
    conversation_loop svc (S fuel) self = Some r.
Proof.
  induction fuel as [|fuel IH]; intros self r H; [discriminate|].
  rewrite conversation_loop_S in H. rewrite conversation_loop_S.
  destruct (running self); [|exact H].
  unfold mbind, M_bind in *.
  destruct (recognize_speech svc self) as [[[u|e] heard]|]; try exact H.
  destruct (is_exit_command u); [exact H|].
  destruct (truthy u); [|now apply IH].
  destruct (run_conversation_chain svc u heard) as [[[text|e] answered]|];
    try exact H.
  destruct (speak svc text answered) as [[[[]|e] spoken]|]; try exact H.
  now apply IH.
Qed.

(** The loop is left normally only through an exit command. *)
Lemma conversation_loop_normal_exit (fuel : nat) :
  forall self final,
    running self = true ->
    conversation_loop svc fuel self = Some (Ret tt, final) ->
    exists before raw,
      recognizer svc (calls before) = Heard raw
      /\ lower raw ∈ exit_commands
      /\ final = record_call EvListen before.
Proof.
  induction fuel as [|fuel IH]; intros self final Hrun Hloop; [discriminate|].
  rewrite conversation_loop_S, Hrun in Hloop.
  unfold mbind at 1, M_bind at 1, recognize_speech in Hloop.
  destruct (recognizer svc (calls self)) as [raw| | | |e] eqn:Hrec;
    try discriminate; try (now apply (IH (record_call EvListen self))).
  unfold is_exit_command in Hloop. rewrite lower_idem in Hloop.
  case_bool_decide as Hexit.
  - inversion Hloop; subst. now exists self, raw.
  - destruct (truthy (lower raw)); [|now apply (IH (record_call EvListen self))].
    unfold mbind at 1, M_bind at 1 in Hloop.
    rewrite run_conversation_chain_eq in Hloop.
    unfold mbind at 1, M_bind at 1 in Hloop.
    destruct (speak svc _ _) as [[[[]|e] spoken]|] eqn:Hsp; try discriminate.
    apply speak_frame in Hsp as ->.
    now apply IH in Hloop.
Qed.

(** The [try] block, step by step. *)
Lemma call_body_eq (fuel : nat) (self : GeminiAgent) :
  let greeting := (after_generation svc "greeting" EmptyString self).1 in
  let greeted := (after_generation svc "greeting" EmptyString self).2 in
  call_body svc fuel self
  = match speak svc greeting greeted with
    | Some (Ret _, spoken) =>
        match conversation_loop svc fuel spoken with
        | Some (Ret _, done) =>
            speak svc (after_generation svc "farewell" EmptyString done).1
              (after_generation svc "farewell" EmptyString done).2
        | Some (Raise e, failed) => Some (Raise e, failed)
        | None => None
        end
    | Some (Raise e, failed) => Some (Raise e, failed)
    | None => None
    end.
Proof.
  intros greeting greeted. unfold call_body.
  unfold mbind at 1, M_bind at 1. rewrite run_greeting_chain_eq.
  fold greeting. fold greeted.
  unfold mbind at 1, M_bind at 1.
  destruct (speak svc greeting greeted) as [[[[]|e] spoken]|]; [|reflexivity..].
  unfold mbind at 1, M_bind at 1.
  destruct (conversation_loop svc fuel spoken) as [[[[]|e] done]|]; [|reflexivity..].
  unfold mbind, M_bind. now rewrite run_farewell_chain_eq.
Qed.

(** The greeting phase of a call: the greeting is generated and spoken. *)
Lemma greeting_phase_eq (self : GeminiAgent) :
  (greeting ← run_greeting_chain svc; speak svc greeting) self
  = speak svc (after_generation svc "greeting" EmptyString self).1
      (after_generation svc "greeting" EmptyString self).2.
Proof. unfold mbind, M_bind. now rewrite run_greeting_chain_eq. Qed.

Lemma greeting_phase_running (self spoken : GeminiAgent) o :
  (greeting ← run_greeting_chain svc; speak svc greeting) self = Some (o, spoken) ->
  running spoken = running self.
Proof.
  rewrite greeting_phase_eq. intros H. apply speak_frame in H as ->. reflexivity.
Qed.

Lemma farewell_phase_eq (self : GeminiAgent) :
  (farewell ← run_farewell_chain svc; speak svc farewell) self
  = speak svc (after_generation svc "farewell" EmptyString self).1
      (after_generation svc "farewell" EmptyString self).2.
Proof. unfold mbind, M_bind. now rewrite run_farewell_chain_eq. Qed.

Lemma call_body_after_greeting (fuel : nat) (self spoken : GeminiAgent) :
  (greeting ← run_greeting_chain svc; speak svc greeting) self
  = Some (Ret tt, spoken) ->
  call_body svc fuel self
  = match conversation_loop svc fuel spoken with
    | Some (Ret _, done) =>
        (farewell ← run_farewell_chain svc; speak svc farewell) done
    | Some (Raise e, failed) => Some (Raise e, failed)
    | None => None
    end.
Proof.
  rewrite greeting_phase_eq, call_body_eq. cbv zeta. intros ->.
  destruct (conversation_loop svc fuel spoken) as [[[[]|e] done]|]; try reflexivity.
  now rewrite farewell_phase_eq.
Qed.

(** *** User turns stay lowercase *)

Lemma lowercase_after_generation (phase u : string) (self : GeminiAgent) :
  user_turns_lowercase self ->
  user_turns_lowercase (after_generation svc phase u self).2.
Proof.
  unfold user_turns_lowercase. simpl. intros H.
  apply Forall_app; split; [exact H|].
  constructor; [discriminate | constructor].
Qed.

Lemma lowercase_add_user (u : string) (self : GeminiAgent) :
  lowercase u -> user_turns_lowercase self ->
  user_turns_lowercase (with_memory (add_user_message u) self).
Proof.
  unfold user_turns_lowercase. simpl. intros Hu H.
  apply Forall_app; split; [exact H|].
  constructor; [intros _; exact Hu | constructor].
Qed.

Lemma conversation_loop_lowercase (fuel : nat) :
  forall self o self',
    conversation_loop svc fuel self = Some (o, self') ->
    user_turns_lowercase self -> user_turns_lowercase self'.
Proof.
  induction fuel as [|fuel IH]; intros self o self' Hloop Hinv; [discriminate|].
  rewrite conversation_loop_S in Hloop.
  destruct (running self); [|inversion Hloop; subst; exact Hinv].
  unfold mbind at 1, M_bind at 1 in Hloop.
  destruct (recognize_speech svc self) as [[[u|e] heard]|] eqn:Hrec;
    [| |discriminate].
  - apply recognize_speech_lowercase in Hrec as [Hu ->].
    destruct (is_exit_command u); [inversion Hloop; subst; exact Hinv|].
    destruct (truthy u); [|eapply IH; [exact Hloop | exact Hinv]].
    unfold mbind at 1, M_bind at 1 in Hloop.
    rewrite run_conversation_chain_eq in Hloop.
    unfold mbind at 1, M_bind at 1 in Hloop.
    set (answered := (after_generation svc "conversation" u _).2) in *.
    assert (user_turns_lowercase answered) as Hans.
    { apply lowercase_after_generation, lowercase_add_user; assumption. }
    destruct (speak svc _ answered) as [[[[]|e] spoken]|] eqn:Hsp; [| |discriminate].
    + apply speak_frame in Hsp as ->. eapply IH; [exact Hloop | exact Hans].
    + apply speak_frame in Hsp as ->. inversion Hloop; subst. exact Hans.
  - apply recognize_speech_frame in Hrec as ->.
    inversion Hloop; subst. exact Hinv.
Qed.

Lemma start_call_lowercase (fuel : nat) (self self' : GeminiAgent) o :
  start_call svc fuel self = Some (o, self') ->
  user_turns_lowercase self -> user_turns_lowercase self'.
Proof.
  unfold start_call, end_call. rewrite call_body_eq. cbv zeta.
  set (greeted := (after_generation svc "greeting" EmptyString _).2).
  intros Hcall Hinv.
  assert (user_turns_lowercase greeted) as Hg
    by now apply lowercase_after_generation.
  destruct (speak svc _ greeted) as [[[[]|e] spoken]|] eqn:Hsp; [| |discriminate].
  - apply speak_frame in Hsp as ->.
    destruct (conversation_loop svc fuel _) as [[[[]|e] done]|] eqn:Hloop;
      [| |discriminate].
    + apply conversation_loop_lowercase in Hloop; [|exact Hg].
      set (parted := (after_generation svc "farewell" EmptyString done).2) in *.
      assert (user_turns_lowercase parted) as Hp
        by now apply lowercase_after_generation.
      destruct (speak svc _ parted) as [[[[]|e] final]|] eqn:Hsp; [| |discriminate];
        apply speak_frame in Hsp as ->; inversion Hcall; subst; exact Hp.
    + apply conversation_loop_lowercase in Hloop; [|exact Hg].
      inversion Hcall; subst. exact Hloop.
  - apply speak_frame in Hsp as ->. inversion Hcall; subst. exact Hg.
Qed.

End AgentProperties.

(** ** The call with [str.lower] and the playback left open *)

Section OpenAgentProperties.

Variable str_lower : string -> string.
Variable hangs : list event -> string -> bool.
Variable svc : Services.


Lemma recognize_speech_with_total (self : GeminiAgent) :
  exists o, recognize_speech_with str_lower svc self
            = Some (o, record_call EvListen self).
Proof.
  unfold recognize_speech_with. destruct (recognizer svc (calls self)); eauto.
Qed.



Lemma speak_with_ends (text : string) (self : GeminiAgent) :
  hangs (calls self) text = false ->
  speak_with hangs svc text self = speak svc text self.
Proof. unfold speak_with. now intros ->. Qed.

Lemma speak_with_hangs (text : string) (self : GeminiAgent) :
  hangs (calls self) text = true -> speak_with hangs svc text self = None.
Proof. unfold speak_with. now intros ->. Qed.

Lemma conversation_loop_with_S (fuel : nat) (self : GeminiAgent) :
  conversation_loop_with str_lower hangs svc (S fuel) self
  = if running self then
      (user_input ← recognize_speech_with str_lower svc;
       if is_exit_command_with str_lower user_input then mret tt
       else if truthy user_input then
         (response ← run_conversation_chain svc user_input;
          speak_with hangs svc response;;
          conversation_loop_with str_lower hangs svc fuel)
       else conversation_loop_with str_lower hangs svc fuel) self
    else Some (Ret tt, self).
Proof. reflexivity. Qed.

Lemma call_body_with_eq (fuel : nat) (self : GeminiAgent) :
  let greeting := (after_generation svc "greeting" EmptyString self).1 in
  let greeted := (after_generation svc "greeting" EmptyString self).2 in
  call_body_with str_lower hangs svc fuel self
  = match speak_with hangs svc greeting greeted with
    | Some (Ret _, spoken) =>
        match conversation_loop_with str_lower hangs svc fuel spoken with
        | Some (Ret _, done) =>
            speak_with hangs svc (after_generation svc "farewell" EmptyString done).1
              (after_generation svc "farewell" EmptyString done).2
        | Some (Raise e, failed) => Some (Raise e, failed)
        | None => None
        end
    | Some (Raise e, failed) => Some (Raise e, failed)
    | None => None
    end.
Proof.
  intros greeting greeted. unfold call_body_with.
  unfold mbind at 1, M_bind at 1. rewrite run_greeting_chain_eq.
  fold greeting. fold greeted.
  unfold mbind at 1, M_bind at 1.
  destruct (speak_with hangs svc greeting greeted) as [[[[]|e] spoken]|];
    [|reflexivity..].
  unfold mbind at 1, M_bind at 1.
  destruct (conversation_loop_with str_lower hangs svc fuel spoken)
    as [[[[]|e] done]|]; [|reflexivity..].
  unfold mbind, M_bind. now rewrite run_farewell_chain_eq.
Qed.

(** *** Every user turn is a lowered transcription *)





End OpenAgentProperties.

(** *** The two models of the call agree *)


Lemma python_lower_lower (s : string) : python_lower lower s = lower s.
Proof. unfold python_lower. now destruct (is_ascii s). Qed.

Lemma conversation_loop_with_lower (svc : Services) (fuel : nat) (self : GeminiAgent) :
  conversation_loop_with lower never_hangs svc fuel self
  = conversation_loop svc fuel self.
Proof. reflexivity. Qed.

Lemma start_call_with_lower (svc : Services) (fuel : nat) (self : GeminiAgent) :
  start_call_with lower never_hangs svc fuel self = start_call svc fuel self.
Proof. reflexivity. Qed.


Lemma no_uppercase_fixed (s : string) : no_uppercase s = true -> lower s = s.
Proof.
  induction s as [|c s IH]; [reflexivity|].
  simpl. intros H. apply andb_true_iff in H as [Hc Hs].
  rewrite (IH Hs). f_equal.
  revert Hc. destruct c as [[] [] [] [] [] [] [] []]; vm_compute; congruence.
Qed.

(** * The claims *)

(** ** Generation *)

(** C7: [generate_response] hands back the model's text when the model
    answers, and the one fixed fallback apology when the model raises; in
    no case does it raise itself, so a failed generation cannot abort the
    call. *)
Theorem generate_response_absorbs_failures
  (svc : Services) (prompt : string) (self : GeminiAgent) :
  (forall text, model svc (calls self) prompt = GenText text ->
     generate_response svc prompt self
     = Some (Ret text, record_call (EvGenerate prompt) self))
  /\ (forall repr, model svc (calls self) prompt = GenNoText repr ->
     generate_response svc prompt self
     = Some (Ret repr, record_call (EvGenerate prompt) self))
  /\ (forall e, model svc (calls self) prompt = GenError e ->
     generate_response svc prompt self
     = Some (Ret fallback_text, record_call (EvGenerate prompt) self))
  /\ (exists text, generate_response svc prompt self
     = Some (Ret text, record_call (EvGenerate prompt) self)).
Proof.
  rewrite generate_response_eq.
  repeat split; try (intros ? ->; reflexivity). eauto.
Qed.

Lemma generate_response_absorbs_failures_witness :
  model model_down_services [] "Namaste"
    = GenError (OtherError "ServiceUnavailable" "503")
  /\ generate_response model_down_services "Namaste" (GeminiAgent_init "demo")
    = Some (Ret fallback_text,
            record_call (EvGenerate "Namaste") (GeminiAgent_init "demo")).
Proof.
  split; [reflexivity|].
  apply (proj1 (proj2 (proj2 (generate_response_absorbs_failures
           model_down_services "Namaste" (GeminiAgent_init "demo"))))
           (OtherError "ServiceUnavailable" "503")).
  reflexivity.
Defined.

(** C3: [run_conversation_chain] appends the user turn, then exactly one
    agent turn holding the model's text, or the fallback text when the
    model fails; the history grows by exactly two turns, in that order. *)
Theorem run_conversation_chain_appends_two
  (svc : Services) (user_input : string) (self : GeminiAgent) :
  exists prompt self',
    let text := response_text (model svc (calls self) prompt) in
    run_conversation_chain svc user_input self = Some (Ret text, self')
    /\ messages (memory self')
       = messages (memory self) ++ [Message user user_input; Message agent text]
    /\ length (messages (memory self')) = length (messages (memory self)) + 2
    /\ calls self' = calls self ++ [EvGenerate prompt]
    /\ (forall e, model svc (calls self) prompt = GenError e -> text = fallback_text).
Proof.
  eexists _, _. cbv zeta. rewrite run_conversation_chain_eq. cbv zeta.
  split; [reflexivity|]. simpl.
  split; [now rewrite <- app_assoc|].
  split; [rewrite !length_app; simpl; lia|].
  split; [reflexivity|].
  intros e ->. reflexivity.
Qed.

Lemma run_conversation_chain_appends_two_witness :
  let self := GeminiAgent_init "demo" in
  exists self',
    run_conversation_chain model_down_services "kal milte hain" self
    = Some (Ret fallback_text, self')
    /\ messages (memory self')
       = [Message user "kal milte hain"; Message agent fallback_text].
Proof.
  cbv zeta.
  destruct (run_conversation_chain_appends_two model_down_services
              "kal milte hain" (GeminiAgent_init "demo"))
    as (prompt & self' & Hrun & Hmessages & _ & _ & Hfallback).
  exists self'.
  rewrite (Hfallback (OtherError "ServiceUnavailable" "503") eq_refl)
    in Hrun, Hmessages.
  split; [exact Hrun | exact Hmessages].
Defined.

(** ** The turn-taking loop *)

(** C4: the loop is left for the farewell exactly when the recognised
    text, lowercased, is one of the six exit commands: such a text ends the
    loop at once, any other text (for instance a sentence that merely
    contains an exit command) starts a turn after which the loop carries
    on, and a loop that ends normally has just heard an exit command.
    Leaving the loop invokes the farewell: once the greeting has been
    spoken, an exit command makes the call ask the model with the farewell
    prompt, append the answer as an agent turn and hand it to [speak],
    which is all that is left of the [try] block; and the call reaches the
    farewell only through a loop that an exit command ended. *)
Theorem exit_command_exact_match (svc : Services) :
  (forall fuel self raw,
     running self = true ->
     recognizer svc (calls self) = Heard raw ->
     lower raw ∈ exit_commands ->
     conversation_loop svc (S fuel) self = Some (Ret tt, record_call EvListen self))
  /\ (forall fuel self raw,
     running self = true ->
     recognizer svc (calls self) = Heard raw ->
     lower raw ∉ exit_commands -> raw <> EmptyString ->
     let heard :=
       with_memory (add_user_message (lower raw)) (record_call EvListen self) in
     let text := (after_generation svc "conversation" (lower raw) heard).1 in
     let answered := (after_generation svc "conversation" (lower raw) heard).2 in
     conversation_loop svc (S fuel) self
     = match tts svc (calls answered) text with
       | SpeakCrash e => Some (Raise e, record_call (EvSpeak text) answered)
       | _ => conversation_loop svc fuel (record_call (EvSpeak text) answered)
       end)
  /\ (forall fuel self final,
     running self = true ->
     conversation_loop svc fuel self = Some (Ret tt, final) ->
     exists before raw,
       recognizer svc (calls before) = Heard raw
       /\ lower raw ∈ exit_commands
       /\ final = record_call EvListen before)
  /\ (forall raw,
     is_exit_command raw = true <->
     lower raw = "bye" \/ lower raw = "goodbye" \/ lower raw = "end call"
     \/ lower raw = "quit" \/ lower raw = "exit" \/ lower raw = "bye-bye")
  /\ is_exit_command "Bye" = true /\ is_exit_command "BYE" = true
  /\ is_exit_command "end call" = true
  /\ is_exit_command "goodbye for now" = false
  /\ (forall fuel self spoken raw,
     (greeting ← run_greeting_chain svc; speak svc greeting) (with_running true self)
     = Some (Ret tt, spoken) ->
     recognizer svc (calls spoken) = Heard raw ->
     lower raw ∈ exit_commands ->
     let listening := record_call EvListen spoken in
     let prompt := prompt_text "farewell" EmptyString spoken in
     let text := response_text (model svc (calls listening) prompt) in
     let answered :=
       with_memory (add_agent_message text)
         (record_call (EvGenerate prompt) listening) in
     run_farewell_chain svc listening = Some (Ret text, answered)
     /\ call_body svc (S fuel) (with_running true self) = speak svc text answered
     /\ start_call svc (S fuel) self
        = match speak svc text answered with
          | Some (_, final) => Some (Ret tt, with_running false final)
          | None => None
          end
     /\ calls answered
        = calls spoken ++ [EvListen; EvGenerate prompt]
     /\ messages (memory answered)
        = messages (memory spoken) ++ [Message agent text])
  /\ (forall fuel self spoken,
     (greeting ← run_greeting_chain svc; speak svc greeting) (with_running true self)
     = Some (Ret tt, spoken) ->
     match conversation_loop svc fuel spoken with
     | Some (Ret _, done) =>
         (exists before raw,
            recognizer svc (calls before) = Heard raw
            /\ lower raw ∈ exit_commands
            /\ done = record_call EvListen before)
         /\ call_body svc fuel (with_running true self)
            = (farewell ← run_farewell_chain svc; speak svc farewell) done
     | Some (Raise e, failed) =>
         call_body svc fuel (with_running true self) = Some (Raise e, failed)
     | None => call_body svc fuel (with_running true self) = None
     end).
Proof.
  split; [intros; now apply (conversation_loop_exit svc fuel self raw)|].
  split; [intros; now apply conversation_loop_turn|].
  split; [intros fuel self final; apply conversation_loop_normal_exit|].
  split.
  { intros raw. unfold is_exit_command, exit_commands.
    rewrite bool_decide_eq_true, list_elem_of_In. simpl.
    intuition congruence. }
  do 4 (split; [reflexivity|]).
  split.
  - intros fuel self spoken raw Hgreet Hrec Hexit listening prompt text answered.
    assert (running spoken = true) as Hrun
      by now rewrite (greeting_phase_running svc _ _ _ Hgreet).
    pose proof (conversation_loop_exit svc fuel spoken raw Hrun Hrec Hexit) as Hloop.
    split; [now rewrite run_farewell_chain_eq|].
    assert (call_body svc (S fuel) (with_running true self) = speak svc text answered)
      as Hbody.
    { rewrite (call_body_after_greeting svc (S fuel) _ _ Hgreet), Hloop.
      now rewrite farewell_phase_eq. }
    split; [exact Hbody|]. split.
    + unfold start_call. rewrite Hbody.
      destruct (speak svc text answered) as [[[[]|e] final]|]; reflexivity.
    + split; [|reflexivity].
      unfold answered, listening. simpl. now rewrite <- app_assoc.
  - intros fuel self spoken Hgreet.
    assert (running spoken = true) as Hrun
      by now rewrite (greeting_phase_running svc _ _ _ Hgreet).
    rewrite (call_body_after_greeting svc fuel _ _ Hgreet).
    destruct (conversation_loop svc fuel spoken) as [[[[]|e] done]|] eqn:Hloop;
      [|reflexivity..].
    split; [|reflexivity].
    now apply (conversation_loop_normal_exit svc fuel spoken done).
Qed.

Lemma exit_command_exact_match_witness :
  let svc := scripted_services [Heard "Goodbye"] in
  let self := with_running true (GeminiAgent_init "interview") in
  running self = true
  /\ recognizer svc (calls self) = Heard "Goodbye"
  /\ lower "Goodbye" ∈ exit_commands
  /\ conversation_loop svc 1 self = Some (Ret tt, record_call EvListen self)
  /\ (greeting ← run_greeting_chain svc; speak svc greeting) self
     = Some (Ret tt, interview_greeted)
  /\ recognizer svc (calls interview_greeted) = Heard "Goodbye"
  /\ exists answered,
       run_farewell_chain svc (record_call EvListen interview_greeted)
       = Some (Ret "Namaste ji", answered)
       /\ call_body svc 1 self = speak svc "Namaste ji" answered
       /\ messages (memory answered)
          = messages (memory interview_greeted) ++ [Message agent "Namaste ji"].
Proof.
  cbv zeta. split; [reflexivity|]. split; [reflexivity|].
  assert (lower "Goodbye" ∈ exit_commands) as Hexit
    by (vm_compute; repeat constructor).
  split; [exact Hexit|].
  destruct (exit_command_exact_match (scripted_services [Heard "Goodbye"]))
    as (Hloop & _ & _ & _ & _ & _ & _ & _ & Hcall & _).
  split.
  { exact (Hloop 0 (with_running true (GeminiAgent_init "interview")) "Goodbye"
             eq_refl eq_refl Hexit). }
  assert ((greeting ← run_greeting_chain (scripted_services [Heard "Goodbye"]);
           speak (scripted_services [Heard "Goodbye"]) greeting)
            (with_running true (GeminiAgent_init "interview"))
          = Some (Ret tt, interview_greeted)) as Hgreet
    by (vm_compute; reflexivity).
  split; [exact Hgreet|]. split; [reflexivity|].
  destruct (Hcall 0 (GeminiAgent_init "interview") interview_greeted "Goodbye"
              Hgreet eq_refl Hexit) as (Hfarewell & Hbody & _ & _ & Hmessages).
  eexists. split; [exact Hfarewell|]. split; [exact Hbody | exact Hmessages].
Defined.

(** C5: when recognition yields the empty string, which is what a timeout,
    unintelligible audio and a service error all come back as, the iteration
    is skipped: nothing is appended to the history, the model is not asked,
    the loop is not left, and the next iteration listens again. *)
Theorem empty_recognition_skips_turn
  (svc : Services) (fuel : nat) (self : GeminiAgent) :
  running self = true ->
  recognition_failed (recognizer svc (calls self)) = true
  \/ recognizer svc (calls self) = Heard EmptyString ->
  let listening := record_call EvListen self in
  recognize_speech svc self = Some (Ret EmptyString, listening)
  /\ conversation_loop svc (S fuel) self = conversation_loop svc fuel listening
  /\ memory listening = memory self
  /\ running listening = true
  /\ calls listening = calls self ++ [EvListen]
  /\ (forall raw, recognizer svc (calls listening) = Heard raw ->
        lower raw ∈ exit_commands ->
        conversation_loop svc (S (S fuel)) self
        = Some (Ret tt, record_call EvListen listening)).
Proof.
  intros Hrun Hnothing listening.
  pose proof (recognize_speech_nothing svc self Hnothing) as Hrec.
  pose proof (conversation_loop_skip svc fuel self Hrun Hrec) as Hskip.
  repeat split; try assumption.
  intros raw Hraw Hexit.
  rewrite (conversation_loop_skip svc (S fuel) self Hrun Hrec).
  now apply (conversation_loop_exit svc fuel listening raw).
Qed.

Lemma empty_recognition_skips_turn_witness :
  let svc := scripted_services [WaitTimeoutError; Heard "bye"] in
  let self := with_running true (GeminiAgent_init "payment") in
  running self = true
  /\ recognition_failed (recognizer svc (calls self)) = true
  /\ conversation_loop svc 2 self
     = Some (Ret tt, record_call EvListen (record_call EvListen self)).
Proof.
  cbv zeta. split; [reflexivity|]. split; [reflexivity|].
  apply ((proj2 (proj2 (proj2 (proj2 (proj2
           (empty_recognition_skips_turn
              (scripted_services [WaitTimeoutError; Heard "bye"]) 0
              (with_running true (GeminiAgent_init "payment"))
              eq_refl (or_introl eq_refl))))))) "bye").
  - reflexivity.
  - vm_compute. repeat constructor.
Defined.

(** C10: when an exit command is heard, the loop is left before anything
    is written to memory: the utterance is not appended, and the farewell
    prompt is rendered over the history as it stood before the exit
    command was spoken. *)
Theorem exit_command_leaves_history
  (svc : Services) (fuel : nat) (self : GeminiAgent) (raw : string) :
  running self = true ->
  recognizer svc (calls self) = Heard raw ->
  lower raw ∈ exit_commands ->
  let listening := record_call EvListen self in
  let prompt := prompt_text "farewell" EmptyString self in
  let text := response_text (model svc (calls listening) prompt) in
  conversation_loop svc (S fuel) self = Some (Ret tt, listening)
  /\ memory listening = memory self
  /\ (conversation_loop svc (S fuel);; run_farewell_chain svc) self
     = Some (Ret text,
             with_memory (add_agent_message text)
               (record_call (EvGenerate prompt) listening))
  /\ _format_prompt (catalog_lookup (scenario self) "farewell") EmptyString listening
     = Some (Ret prompt, listening)
  /\ kwargs_get (format_kwargs EmptyString listening) "conversation_history"
     = Some (get_conversation_history (memory self)).
Proof.
  intros Hrun Hrec Hexit listening prompt text.
  pose proof (conversation_loop_exit svc fuel self raw Hrun Hrec Hexit) as Hloop.
  split; [exact Hloop|]. split; [reflexivity|].
  split; [|split; [apply (format_prompt_catalog "farewell" EmptyString listening)
                  | reflexivity]].
  unfold mbind, M_bind. rewrite Hloop. fold listening.
  now rewrite run_farewell_chain_eq.
Qed.

Lemma exit_command_leaves_history_witness :
  let svc := scripted_services [Heard "Bye-Bye"] in
  let self := with_running true (GeminiAgent_init "demo") in
  running self = true
  /\ recognizer svc (calls self) = Heard "Bye-Bye"
  /\ lower "Bye-Bye" ∈ exit_commands
  /\ (conversation_loop svc 1;; run_farewell_chain svc) self
     = Some (Ret "Namaste ji",
             with_memory (add_agent_message "Namaste ji")
               (record_call (EvGenerate (prompt_text "farewell" EmptyString self))
                  (record_call EvListen self))).
Proof.
  cbv zeta. split; [reflexivity|]. split; [reflexivity|].
  assert (lower "Bye-Bye" ∈ exit_commands) as Hexit
    by (vm_compute; repeat constructor).
  split; [exact Hexit|].
  exact (proj1 (proj2 (proj2 (exit_command_leaves_history
           (scripted_services [Heard "Bye-Bye"]) 0
           (with_running true (GeminiAgent_init "demo")) "Bye-Bye"
           eq_refl eq_refl Hexit)))).
Defined.

(** ** Templates and prompts *)

(** C2, as the code has it: for a (scenario, phase) pair without an entry
    in the catalogue the lookup raises nothing and returns the empty
    template; for a pair with an entry it returns that entry, the template
    the source gives under that scenario and that phase. *)
Theorem get_prompt_template_unknown_pair (phase : string) (self : GeminiAgent) :
  (~ in_catalog (scenario self) phase ->
     _get_prompt_template phase self = Some (Ret EmptyString, self))
  /\ (in_catalog (scenario self) phase ->
     exists template,
       _get_prompt_template phase self = Some (Ret template, self)
       /\ template ∈ catalog_templates)
  /\ (scenario self = "demo" -> phase = "greeting" ->
     _get_prompt_template phase self = Some (Ret demo_greeting, self))
  /\ (scenario self = "demo" -> phase = "conversation" ->
     _get_prompt_template phase self = Some (Ret demo_conversation, self))
  /\ (scenario self = "demo" -> phase = "farewell" ->
     _get_prompt_template phase self = Some (Ret demo_farewell, self))
  /\ (scenario self = "interview" -> phase = "greeting" ->
     _get_prompt_template phase self = Some (Ret interview_greeting, self))
  /\ (scenario self = "interview" -> phase = "conversation" ->
     _get_prompt_template phase self = Some (Ret interview_conversation, self))
  /\ (scenario self = "interview" -> phase = "farewell" ->
     _get_prompt_template phase self = Some (Ret interview_farewell, self))
  /\ (scenario self = "payment" -> phase = "greeting" ->
     _get_prompt_template phase self = Some (Ret payment_greeting, self))
  /\ (scenario self = "payment" -> phase = "conversation" ->
     _get_prompt_template phase self = Some (Ret payment_conversation, self))
  /\ (scenario self = "payment" -> phase = "farewell" ->
     _get_prompt_template phase self = Some (Ret payment_farewell, self)).
Proof.
  unfold _get_prompt_template.
  split; [|split].
  - destruct (catalog_lookup_cases (scenario self) phase) as [[Hin Ht] | [Hout Ht]];
      [tauto | now rewrite Ht].
  - destruct (catalog_lookup_cases (scenario self) phase) as [[Hin Ht] | [Hout Ht]];
      [eauto | tauto].
  - repeat split; intros -> ->; rewrite catalog_lookup_spec; reflexivity.
Qed.

Lemma get_prompt_template_unknown_pair_witness :
  (~ in_catalog (scenario (GeminiAgent_init "support")) "greeting"
   /\ _get_prompt_template "greeting" (GeminiAgent_init "support")
      = Some (Ret EmptyString, GeminiAgent_init "support"))
  /\ (scenario (GeminiAgent_init "payment") = "payment"
      /\ _get_prompt_template "farewell" (GeminiAgent_init "payment")
         = Some (Ret payment_farewell, GeminiAgent_init "payment")).
Proof.
  assert (~ in_catalog (scenario (GeminiAgent_init "support")) "greeting") as Hout.
  { unfold in_catalog, scenarios. rewrite !list_elem_of_In. simpl.
    intuition congruence. }
  split.
  - split; [exact Hout|].
    exact (proj1 (get_prompt_template_unknown_pair "greeting"
                    (GeminiAgent_init "support")) Hout).
  - split; [reflexivity|].
    destruct (get_prompt_template_unknown_pair "farewell" (GeminiAgent_init "payment"))
      as (_ & _ & _ & _ & _ & _ & _ & _ & _ & _ & Hentry).
    exact (Hentry eq_refl eq_refl).
Defined.

(** C2, as stated, fails: an unknown scenario, and an unknown phase of a
    known scenario, both get the empty template back and no error. *)
Lemma get_prompt_template_returns_empty :
  ~ in_catalog "support" "greeting"
  /\ _get_prompt_template "greeting" (GeminiAgent_init "support")
     = Some (Ret EmptyString, GeminiAgent_init "support")
  /\ ~ in_catalog "demo" "smalltalk"
  /\ _get_prompt_template "smalltalk" (GeminiAgent_init "demo")
     = Some (Ret EmptyString, GeminiAgent_init "demo")
  /\ (forall e self',
        _get_prompt_template "greeting" (GeminiAgent_init "support")
        <> Some (Raise e, self')).
Proof.
  unfold in_catalog, scenarios, phases. rewrite !list_elem_of_In. simpl.
  repeat split; try (intuition congruence); try reflexivity.
  intros e self'. vm_compute. discriminate.
Qed.

Lemma profile_placeholder_kwarg (user_input : string) (self : GeminiAgent) (name : string) :
  name ∈ profile_placeholders ->
  plain_name name = true
  /\ kwargs_get (format_kwargs user_input self) name
     = Some (dict_get (get_context "profile" ∅ (memory self)) name EmptyString).
Proof.
  unfold profile_placeholders. rewrite list_elem_of_In. simpl.
  intros H. repeat (destruct H as [<- | H]; [split; reflexivity|]). contradiction.
Qed.

Lemma knowledge_placeholder_kwarg (user_input : string) (self : GeminiAgent) (name : string) :
  name ∈ knowledge_placeholders ->
  plain_name name = true
  /\ kwargs_get (format_kwargs user_input self) name
     = Some (dict_get (get_context "knowledge" ∅ (memory self)) name EmptyString).
Proof.
  unfold knowledge_placeholders. rewrite list_elem_of_In. simpl.
  intros H. repeat (destruct H as [<- | H]; [split; reflexivity|]). contradiction.
Qed.

Lemma format_around_field (kwargs : list (string * string))
  (pre name post before after v : string) :
  plain_name name = true ->
  kwargs_get kwargs name = Some v ->
  str_format pre kwargs = Some (Ret before) ->
  str_format post kwargs = Some (Ret after) ->
  str_format (pre +:+ String "{"%char (name +:+ String "}"%char post)) kwargs
  = Some (Ret (before +:+ v +:+ after)).
Proof.
  unfold str_format. intros Hplain Hget Hpre Hpost.
  rewrite (format_from_app _ _ _ _ _ Hpre).
  rewrite format_plain_field by assumption.
  rewrite Hget, Hpost. reflexivity.
Qed.

Lemma format_kwargs_key_names (user_input : string) (self : GeminiAgent) :
  forallb has_key_char (map fst (format_kwargs user_input self)) = true.
Proof. reflexivity. Qed.

(** Formatting raises as soon as one of the fields it resolves is no
    keyword. *)
Lemma format_from_unknown_field (kwargs : list (string * string)) :
  forallb has_key_char (map fst kwargs) = true ->
  forall t st,
    (exists name, In name (field_names_from st t) /\ kwargs_get kwargs name = None) ->
    exists e, format_from kwargs st t = Some (Raise e).
Proof.
  intros Hkeys. induction t as [|c t IH]; intros st (name & Hin & Hnone);
    [contradiction|].
  simpl in Hin |- *.
  destruct (scan_step st c) as [st' | c' st' | field | field | e].
  - apply IH. eauto.
  - destruct (IH st') as [e ->]; eauto.
  - unfold end_simple.
    destruct (kwargs_get kwargs field) as [v|] eqn:Hget.
    + assert (has_key_char field = true) as Hkey.
      { rewrite forallb_forall in Hkeys. apply Hkeys.
        clear -Hget. induction kwargs as [|[k w] kwargs IHk]; [discriminate|].
        simpl in Hget |- *. destruct (String.eqb_spec k field); [now left|].
        right. now apply IHk. }
      rewrite (resolve_key_name kwargs field Hkey), Hget.
      destruct Hin as [-> | Hin]; [congruence|].
      destruct (IH InText) as [e ->]; eauto.
    + destruct (resolve_unknown kwargs field Hget) as [e ->]. eauto.
  - destruct Hin as [-> | []].
    unfold end_complex. destruct (resolve_unknown kwargs name Hnone) as [e ->]. eauto.
  - contradiction.
Qed.

(** C6: whatever the profile and the knowledge bucket hold, formatting a
    catalogue template raises nothing; a placeholder whose key is absent
    contributes the empty string, wherever it stands in a template; and a
    template with a placeholder outside the eighteen names passed to
    [format] fails: whatever follows the opening brace of such a field, an
    exception is raised, and it is a [KeyError] for that name when the
    field is a name between braces. *)
Theorem format_prompt_missing_keys_and_unknown_placeholders
  (user_input : string) (self : GeminiAgent) :
  (forall scenario phase, in_catalog scenario phase ->
     exists prompt,
       _format_prompt (catalog_lookup scenario phase) user_input self
       = Some (Ret prompt, self))
  /\ (forall name pre post before after,
     name ∈ profile_placeholders /\
       get_context "profile" ∅ (memory self) !! name = None
     \/ name ∈ knowledge_placeholders /\
       get_context "knowledge" ∅ (memory self) !! name = None ->
     str_format pre (format_kwargs user_input self) = Some (Ret before) ->
     str_format post (format_kwargs user_input self) = Some (Ret after) ->
     _format_prompt (pre +:+ String "{"%char (name +:+ String "}"%char post))
       user_input self
     = Some (Ret (before +:+ EmptyString +:+ after), self))
  /\ (forall pre after before,
     str_format pre (format_kwargs user_input self) = Some (Ret before) ->
     String.get 0 after <> Some "{"%char ->
     arg_name after ∉ placeholder_names ->
     exists e,
       _format_prompt (pre +:+ String "{"%char after) user_input self
       = Some (Raise e, self))
  /\ (forall pre name post before,
     key_name name = true ->
     name ∉ placeholder_names ->
     str_format pre (format_kwargs user_input self) = Some (Ret before) ->
     _format_prompt (pre +:+ String "{"%char (name +:+ String "}"%char post))
       user_input self
     = Some (Raise (KeyError name), self))
  /\ (forall template name,
     name ∈ template_fields template ->
     name ∉ placeholder_names ->
     exists e, _format_prompt template user_input self = Some (Raise e, self)).
Proof.
  assert (forall name, name ∉ placeholder_names ->
            kwargs_get (format_kwargs user_input self) name = None) as Hunknown.
  { intros name Hout. apply kwargs_get_not_in.
    rewrite format_kwargs_names. now rewrite <- list_elem_of_In. }
  split; [|split; [|split; [|split]]].
  - intros scenario phase _.
    pose proof (catalog_formats scenario phase user_input self) as H.
    unfold _format_prompt.
    destruct (str_format _ _) as [[p|e]|]; simpl in H; try discriminate. eauto.
  - intros name pre post before after Hmissing Hpre Hpost.
    unfold _format_prompt.
    assert (plain_name name = true
            /\ kwargs_get (format_kwargs user_input self) name = Some EmptyString)
      as [Hplain Hget].
    { destruct Hmissing as [[Hin Hnone] | [Hin Hnone]].
      - destruct (profile_placeholder_kwarg user_input self name Hin) as [? ->].
        unfold dict_get. now rewrite Hnone.
      - destruct (knowledge_placeholder_kwarg user_input self name Hin) as [? ->].
        unfold dict_get. now rewrite Hnone. }
    now rewrite (format_around_field _ pre name post before after EmptyString).
  - intros pre after before Hpre Hopen Hout.
    unfold _format_prompt, str_format in *.
    rewrite (format_from_app _ _ _ _ _ Hpre).
    destruct (format_from_open_raises (format_kwargs user_input self) after
                Hopen (Hunknown _ Hout)) as [e ->].
    exists e. reflexivity.
  - intros pre name post before Hkey Hout Hpre.
    unfold _format_prompt, str_format in *.
    rewrite (format_from_app _ _ _ _ _ Hpre).
    rewrite format_key_field by assumption.
    now rewrite (Hunknown _ Hout).
  - intros template name Hin Hout.
    unfold _format_prompt, str_format.
    destruct (format_from_unknown_field (format_kwargs user_input self)
                (format_kwargs_key_names user_input self) template InText)
      as [e ->]; [|eauto].
    exists name. split; [now apply list_elem_of_In | now apply Hunknown].
Qed.

Lemma format_prompt_missing_keys_and_unknown_placeholders_witness :
  let self := GeminiAgent_init "demo" in
  (key_name "title" = true
   /\ ("title" ∉ placeholder_names)
   /\ str_format "Dear " (format_kwargs EmptyString self) = Some (Ret "Dear ")
   /\ _format_prompt "Dear {title} {name}" EmptyString self
      = Some (Raise (KeyError "title"), self))
  /\ ("invoice_number" ∈ knowledge_placeholders
      /\ get_context "knowledge" ∅ (memory self) !! "invoice_number" = None
      /\ _format_prompt "Invoice: {invoice_number}, {company}" EmptyString self
         = Some (Ret "Invoice: , Tech Solutions Ltd", self))
  /\ (key_name "due-amount" = true
      /\ ("due-amount" ∉ placeholder_names)
      /\ _format_prompt "Due: {due-amount}" EmptyString self
         = Some (Raise (KeyError "due-amount"), self))
  /\ (String.get 0 "0} of {name!r" <> Some "{"%char
      /\ (arg_name "0} of {name!r" ∉ placeholder_names)
      /\ exists e,
           _format_prompt "Item {0} of {name!r" EmptyString self
           = Some (Raise e, self)).
Proof.
  cbv zeta.
  assert (forall name, bool_decide (name ∈ placeholder_names) = false ->
            name ∉ placeholder_names) as Hout
    by (intros name H; now apply bool_decide_eq_false in H).
  assert ("invoice_number" ∈ knowledge_placeholders) as Hin
    by (unfold knowledge_placeholders; repeat constructor).
  assert (get_context "knowledge" ∅ (memory (GeminiAgent_init "demo"))
            !! "invoice_number" = None) as Hnone by (vm_compute; reflexivity).
  destruct (format_prompt_missing_keys_and_unknown_placeholders EmptyString
              (GeminiAgent_init "demo")) as (_ & Hmissing & Hopen & Hkey & _).
  split; [|split; [|split]].
  - split; [reflexivity|]. split; [apply Hout; reflexivity|]. split; [reflexivity|].
    exact (Hkey "Dear " "title" " {name}" "Dear " eq_refl
             (Hout "title" eq_refl) eq_refl).
  - split; [exact Hin|]. split; [exact Hnone|].
    exact (Hmissing "invoice_number" "Invoice: " ", {company}"
             "Invoice: " ", Tech Solutions Ltd"
             (or_intror (conj Hin Hnone)) eq_refl eq_refl).
  - split; [reflexivity|]. split; [apply Hout; reflexivity|].
    exact (Hkey "Due: " "due-amount" EmptyString "Due: " eq_refl
             (Hout "due-amount" eq_refl) eq_refl).
  - assert (String.get 0 "0} of {name!r" <> Some "{"%char) as Hfirst by discriminate.
    split; [exact Hfirst|]. split; [apply Hout; reflexivity|].
    exact (Hopen "Item " "0} of {name!r" "Item " eq_refl Hfirst
             (Hout (arg_name "0} of {name!r") eq_refl)).
Defined.

(** ** The history rendering *)

(** C8, as the code has it: the rendering is the concatenation, in
    insertion order, of one entry per turn, the role label ("Customer" or
    "AI"), a colon and a space, the content, a line feed; these are
    exactly as many lines as there are turns when no content holds a line
    feed; appending a turn appends its entry; and building a prompt, the
    one place that reads the rendering, changes nothing in the agent. *)
Theorem history_rendering (mem : ConversationMemory) :
  get_conversation_history mem = concat_strings (map history_entry (messages mem))
  /\ (Forall (fun m => has_newline (content m) = false) (messages mem) ->
      text_lines (get_conversation_history mem) = map history_line (messages mem)
      /\ length (text_lines (get_conversation_history mem)) = length (messages mem))
  /\ (forall text,
      get_conversation_history (add_user_message text mem)
      = get_conversation_history mem +:+ "Customer: " +:+ text +:+ newline)
  /\ (forall text,
      get_conversation_history (add_agent_message text mem)
      = get_conversation_history mem +:+ "AI: " +:+ text +:+ newline)
  /\ (forall template user_input self o self',
      _format_prompt template user_input self = Some (o, self') -> self' = self).
Proof.
  split; [apply history_is_concat|].
  split.
  { intros Hclean. rewrite history_is_concat, text_lines_entries by assumption.
    split; [reflexivity | apply length_map]. }
  split; [|split].
  - intros text. rewrite !history_is_concat. simpl.
    rewrite map_app, concat_strings_app. simpl.
    unfold history_entry. simpl. now rewrite string_app_nil_r.
  - intros text. rewrite !history_is_concat. simpl.
    rewrite map_app, concat_strings_app. simpl.
    unfold history_entry. simpl. now rewrite string_app_nil_r.
  - intros template user_input self o self'. apply format_prompt_frame.
Qed.

Lemma history_rendering_witness :
  let mem := add_agent_message "Zaroor, kal 3 baje?"
               (add_user_message "demo kab ho sakta hai"
                  (add_agent_message "Namaste ji" ConversationMemory_init)) in
  Forall (fun m => has_newline (content m) = false) (messages mem)
  /\ text_lines (get_conversation_history mem)
     = ["AI: Namaste ji"; "Customer: demo kab ho sakta hai"; "AI: Zaroor, kal 3 baje?"].
Proof.
  cbv zeta.
  assert (Forall (fun m => has_newline (content m) = false)
            (messages (add_agent_message "Zaroor, kal 3 baje?"
               (add_user_message "demo kab ho sakta hai"
                  (add_agent_message "Namaste ji" ConversationMemory_init)))))
    as Hclean by (repeat constructor).
  split; [exact Hclean|].
  exact (proj1 (proj1 (proj2 (history_rendering _)) Hclean)).
Defined.

(** C8, as stated, fails: one agent turn whose text holds a line feed is
    rendered as two lines, the second without a role label. *)
Lemma history_multiline_turn :
  let mem := add_agent_message ("Namaste!" +:+ newline +:+ "Kaise hain aap?")
               ConversationMemory_init in
  length (messages mem) = 1
  /\ text_lines (get_conversation_history mem) = ["AI: Namaste!"; "Kaise hain aap?"]
  /\ length (text_lines (get_conversation_history mem)) <> length (messages mem).
Proof. cbv zeta. split; [reflexivity|]. split; [reflexivity|]. vm_compute. discriminate. Qed.

(** ** The call as a whole *)


Lemma history_after_user (text : string) (mem : ConversationMemory) :
  get_conversation_history (add_user_message text mem)
  = get_conversation_history mem +:+ "Customer: " +:+ text +:+ newline.
Proof.
  rewrite !history_is_concat. simpl.
  rewrite map_app, concat_strings_app. simpl.
  unfold history_entry. simpl. now rewrite string_app_nil_r.
Qed.



(** C1, as the code has it: [start_call] never lets an exception out and
    always finishes with [running] false; when an exception escapes the
    turn-taking loop the farewell is skipped: the call ends in the state
    the failure left, nothing more is generated, spoken or appended; the
    farewell is generated and spoken only when the loop is left normally. *)
Theorem start_call_failure_policy
  (svc : Services) (fuel : nat) (self : GeminiAgent) :
  (forall o final, start_call svc fuel self = Some (o, final) ->
     o = Ret tt /\ running final = false)
  /\ (forall spoken failed e,
     (greeting ← run_greeting_chain svc; speak svc greeting) (with_running true self)
       = Some (Ret tt, spoken) ->
     conversation_loop svc fuel spoken = Some (Raise e, failed) ->
     exists final,
       start_call svc fuel self = Some (Ret tt, final)
       /\ running final = false
       /\ calls final = calls failed
       /\ memory final = memory failed)
  /\ (forall spoken done,
     (greeting ← run_greeting_chain svc; speak svc greeting) (with_running true self)
       = Some (Ret tt, spoken) ->
     conversation_loop svc fuel spoken = Some (Ret tt, done) ->
     exists final,
       let prompt := prompt_text "farewell" EmptyString done in
       let text := response_text (model svc (calls done) prompt) in
       start_call svc fuel self = Some (Ret tt, final)
       /\ running final = false
       /\ calls final = calls done ++ [EvGenerate prompt; EvSpeak text]
       /\ messages (memory final) = messages (memory done) ++ [Message agent text]).
Proof.
  split; [|split].
  - intros o final. unfold start_call, end_call.
    destruct (call_body svc fuel _) as [[[[]|e] s]|]; intros H; inversion H;
      split; reflexivity.
  - intros spoken failed e Hgreet Hloop.
    unfold start_call, end_call. rewrite call_body_eq. cbv zeta.
    unfold mbind, M_bind in Hgreet. rewrite run_greeting_chain_eq in Hgreet.
    rewrite Hgreet, Hloop. eexists; repeat split.
  - intros spoken done Hgreet Hloop.
    unfold start_call, end_call. rewrite call_body_eq. cbv zeta.
    unfold mbind, M_bind in Hgreet. rewrite run_greeting_chain_eq in Hgreet.
    rewrite Hgreet, Hloop.
    set (parted := (after_generation svc "farewell" EmptyString done).2).
    set (text := (after_generation svc "farewell" EmptyString done).1).
    destruct (speak_total svc text parted) as [o Hsp]. rewrite Hsp.
    destruct o as [[]|e]; eexists; (split; [reflexivity|]);
      (split; [reflexivity|]); simpl; (split; [|reflexivity]);
      now rewrite <- app_assoc.
Qed.

Lemma start_call_failure_policy_witness :
  let self := GeminiAgent_init "demo" in
  let spoken :=
    record_call (EvSpeak "Namaste ji")
      (after_generation mic_down_services "greeting" EmptyString
         (with_running true self)).2 in
  (greeting ← run_greeting_chain mic_down_services;
   speak mic_down_services greeting) (with_running true self)
    = Some (Ret tt, spoken)
  /\ conversation_loop mic_down_services 3 spoken
     = Some (Raise (OtherError "OSError" "No Default Input Device Available"),
             record_call EvListen spoken)
  /\ exists final,
       start_call mic_down_services 3 self = Some (Ret tt, final)
       /\ running final = false
       /\ calls final = calls (record_call EvListen spoken)
       /\ memory final = memory (record_call EvListen spoken).
Proof.
  intros self spoken.
  assert ((greeting ← run_greeting_chain mic_down_services;
           speak mic_down_services greeting) (with_running true self)
          = Some (Ret tt, spoken)) as Hgreet by (vm_compute; reflexivity).
  assert (conversation_loop mic_down_services 3 spoken
          = Some (Raise (OtherError "OSError" "No Default Input Device Available"),
                  record_call EvListen spoken)) as Hloop
    by (vm_compute; reflexivity).
  split; [exact Hgreet|]. split; [exact Hloop|].
  exact (proj1 (proj2 (start_call_failure_policy mic_down_services 3 self))
           spoken (record_call EvListen spoken)
           (OtherError "OSError" "No Default Input Device Available")
           Hgreet Hloop).
Defined.

(** C1, as stated, fails: the input device raises right after the
    greeting; the call ends with the greeting as the only generation and
    the only turn, and no farewell prompt was ever sent to the model. *)
Lemma start_call_skips_farewell_on_failure :
  let self := GeminiAgent_init "demo" in
  recognizer mic_down_services
    [EvGenerate (prompt_text "greeting" EmptyString self); EvSpeak "Namaste ji"]
    = ListenCrash (OtherError "OSError" "No Default Input Device Available")
  /\ exists final,
       start_call mic_down_services 3 self = Some (Ret tt, final)
       /\ running final = false
       /\ calls final
          = [EvGenerate (prompt_text "greeting" EmptyString self);
             EvSpeak "Namaste ji"; EvListen]
       /\ messages (memory final) = [Message agent "Namaste ji"]
       /\ bool_decide
            (EvGenerate (prompt_text "farewell" EmptyString final) ∈ calls final)
          = false.
Proof.
  cbv zeta. split; [reflexivity|].
  eexists. split; [vm_compute; reflexivity|].
  repeat split; vm_compute; reflexivity.
Qed.

(** * Further properties of the program *)

(** ** ConversationMemory: the context store *)

(** X1: what [set_context] stores under a key is what [get_context]
    returns for it, whatever the default; other keys keep their value; a
    key that was never set yields the default; and storing context leaves
    the message history alone. *)
Theorem context_store_round_trip
  (key other : string) (data dflt : gmap string string) (mem : ConversationMemory) :
  get_context key dflt (set_context key data mem) = data
  /\ (other <> key ->
      get_context other dflt (set_context key data mem) = get_context other dflt mem)
  /\ (context mem !! key = None -> get_context key dflt mem = dflt)
  /\ messages (set_context key data mem) = messages mem
  /\ get_conversation_history (set_context key data mem)
     = get_conversation_history mem.
Proof.
  unfold get_context, set_context, dict_get. simpl.
  split; [now rewrite lookup_insert_eq|].
  split; [intros Hne; now rewrite lookup_insert_ne|].
  split; [now intros ->|].
  split; reflexivity.
Qed.

Lemma context_store_round_trip_witness :
  "knowledge" <> "profile"
  /\ get_context "knowledge" ∅
       (set_context "profile" {["name" := "Asha"]} ConversationMemory_init)
     = get_context "knowledge" ∅ ConversationMemory_init
  /\ (context ConversationMemory_init !! "notes" = None
      /\ get_context "notes" {["k" := "v"]} ConversationMemory_init = {["k" := "v"]}).
Proof.
  assert ("knowledge" <> "profile") as Hne by discriminate.
  assert (context ConversationMemory_init !! "notes" = None) as Hnone
    by (vm_compute; reflexivity).
  split; [exact Hne|].
  split.
  - exact (proj1 (proj2 (context_store_round_trip "profile" "knowledge"
                           {["name" := "Asha"]} ∅ ConversationMemory_init)) Hne).
  - split; [exact Hnone|].
    exact (proj1 (proj2 (proj2 (context_store_round_trip "notes" "notes"
                           ∅ {["k" := "v"]} ConversationMemory_init))) Hnone).
Defined.

(** ** Invariants of a call *)

(** A call is made of four kinds of steps: setting the running flag,
    listening without a turn, a generated text appended and spoken, and a
    full turn (listen, user turn, generated answer, speech).  A relation
    between the agent before and after that each of them respects is
    respected by the loop and by the whole call. *)
Section CallInvariant.

Variable svc : Services.
Variable R : GeminiAgent -> GeminiAgent -> Prop.

Hypothesis R_refl : forall s, R s s.
Hypothesis R_trans : forall a b c, R a b -> R b c -> R a c.
Hypothesis R_running : forall b s, R s (with_running b s).
Hypothesis R_listen : forall s, R s (record_call EvListen s).
Hypothesis R_say : forall phase s,
  R s (record_call (EvSpeak (after_generation svc phase EmptyString s).1)
         (after_generation svc phase EmptyString s).2).
Hypothesis R_turn : forall u s,
  R s (record_call
         (EvSpeak (after_generation svc "conversation" u
                     (with_memory (add_user_message u) (record_call EvListen s))).1)
         (after_generation svc "conversation" u
            (with_memory (add_user_message u) (record_call EvListen s))).2).

Lemma conversation_loop_invariant (fuel : nat) :
  forall self o final,
    conversation_loop svc fuel self = Some (o, final) -> R self final.
Proof.
  induction fuel as [|fuel IH]; intros self o final Hloop; [discriminate|].
  rewrite conversation_loop_S in Hloop.
  destruct (running self); [|inversion Hloop; subst; apply R_refl].
  unfold mbind at 1, M_bind at 1 in Hloop.
  destruct (recognize_speech svc self) as [[[u|e] heard]|] eqn:Hrec;
    [| |discriminate]; apply recognize_speech_frame in Hrec as ->.
  - destruct (is_exit_command u); [inversion Hloop; subst; apply R_listen|].
    destruct (truthy u).
    + unfold mbind at 1, M_bind at 1 in Hloop.
      rewrite run_conversation_chain_eq in Hloop.
      unfold mbind at 1, M_bind at 1 in Hloop.
      pose proof (R_turn u self) as Hturn.
      destruct (speak svc _ _) as [[[[]|e] spoken]|] eqn:Hsp;
        [| |discriminate]; apply speak_frame in Hsp as ->.
      * eapply R_trans; [exact Hturn | eapply IH; exact Hloop].
      * inversion Hloop; subst. exact Hturn.
    + eapply R_trans; [apply R_listen | eapply IH; exact Hloop].
  - inversion Hloop; subst. apply R_listen.
Qed.

Lemma start_call_invariant_after_greeting (fuel : nat) (self final : GeminiAgent) o :
  start_call svc fuel self = Some (o, final) ->
  R (record_call
       (EvSpeak (after_generation svc "greeting" EmptyString (with_running true self)).1)
       (after_generation svc "greeting" EmptyString (with_running true self)).2)
    final.
Proof.
  unfold start_call, end_call. rewrite call_body_eq. cbv zeta.
  intros Hcall.
  destruct (speak svc _ _) as [[[[]|e] spoken]|] eqn:Hsp; [| |discriminate];
    apply speak_frame in Hsp as ->.
  - destruct (conversation_loop svc fuel _) as [[[[]|e] done]|] eqn:Hloop;
      [| |discriminate]; apply conversation_loop_invariant in Hloop.
    + pose proof (R_say "farewell" done) as Hfarewell.
      destruct (speak svc _ _) as [[[[]|e] spoken]|] eqn:Hsp;
        [| |discriminate]; apply speak_frame in Hsp as ->;
        inversion Hcall; subst;
        (eapply R_trans; [exact Hloop|]);
        (eapply R_trans; [exact Hfarewell | apply R_running]).
    + inversion Hcall; subst.
      eapply R_trans; [exact Hloop | apply R_running].
  - inversion Hcall; subst. apply R_running.
Qed.

Lemma start_call_invariant (fuel : nat) (self final : GeminiAgent) o :
  start_call svc fuel self = Some (o, final) -> R self final.
Proof.
  intros Hcall. apply start_call_invariant_after_greeting in Hcall.
  eapply R_trans; [apply (R_running true)|].
  eapply R_trans; [apply (R_say "greeting") | exact Hcall].
Qed.

End CallInvariant.

(** *** Append-only history, fixed scenario and context *)

Lemma extends_refl (s : GeminiAgent) : extends s s.
Proof.
  repeat split; [exists [] | exists []]; now rewrite app_nil_r.
Qed.

Lemma extends_trans (a b c : GeminiAgent) : extends a b -> extends b c -> extends a c.
Proof.
  intros (Hs1 & Hc1 & [m1 Hm1] & [n1 Hn1]) (Hs2 & Hc2 & [m2 Hm2] & [n2 Hn2]).
  split; [congruence|]. split; [congruence|]. split.
  - exists (m1 ++ m2). now rewrite Hm2, Hm1, app_assoc.
  - exists (n1 ++ n2). now rewrite Hn2, Hn1, app_assoc.
Qed.

Lemma extends_record_call (ev : event) (s : GeminiAgent) : extends s (record_call ev s).
Proof.
  repeat split; [exists []; simpl; now rewrite app_nil_r | now exists [ev]].
Qed.

Lemma extends_say (svc : Services) (phase : string) (s : GeminiAgent) :
  extends s (record_call (EvSpeak (after_generation svc phase EmptyString s).1)
               (after_generation svc phase EmptyString s).2).
Proof.
  repeat split; simpl; [eauto|].
  eexists. now rewrite <- app_assoc.
Qed.

Lemma extends_turn (svc : Services) (u : string) (s : GeminiAgent) :
  extends s
    (record_call
       (EvSpeak (after_generation svc "conversation" u
                   (with_memory (add_user_message u) (record_call EvListen s))).1)
       (after_generation svc "conversation" u
          (with_memory (add_user_message u) (record_call EvListen s))).2).
Proof.
  repeat split; simpl.
  - eexists. now rewrite <- app_assoc.
  - eexists. now rewrite <- !app_assoc.
Qed.

(** X2: whatever the services do, a call never changes the agent's
    scenario or its profile and knowledge, and it only ever appends: the
    final history is the initial one followed by the greeting turn and
    further turns, and the log of service calls continues the initial one. *)
Theorem call_only_appends
  (svc : Services) (fuel : nat) (self final : GeminiAgent) (o : outcome unit) :
  start_call svc fuel self = Some (o, final) ->
  scenario final = scenario self
  /\ context (memory final) = context (memory self)
  /\ (exists added,
        let prompt := prompt_text "greeting" EmptyString self in
        let greeting := response_text (model svc (calls self) prompt) in
        messages (memory final)
        = messages (memory self) ++ Message agent greeting :: added)
  /\ (exists new, calls final = calls self ++ new).
Proof.
  intros Hcall.
  pose proof (start_call_invariant svc extends extends_refl extends_trans
                (fun b s => extends_refl s)
                (extends_record_call EvListen) (extends_say svc)
                (extends_turn svc) fuel self final o Hcall)
    as (Hscenario & Hcontext & _ & Hcalls).
  pose proof (start_call_invariant_after_greeting svc extends extends_refl
                extends_trans (fun b s => extends_refl s)
                (extends_record_call EvListen) (extends_say svc)
                (extends_turn svc) fuel self final o Hcall)
    as (_ & _ & [added Hadded] & _).
  repeat split; try assumption.
  exists added. cbv zeta. rewrite Hadded. simpl. now rewrite <- app_assoc.
Qed.

Lemma call_only_appends_witness :
  start_call one_turn_services 2 (GeminiAgent_init "demo") = Some (Ret tt, one_turn_final)
  /\ scenario one_turn_final = "demo"
  /\ context (memory one_turn_final) = context (memory (GeminiAgent_init "demo")).
Proof.
  assert (start_call one_turn_services 2 (GeminiAgent_init "demo")
          = Some (Ret tt, one_turn_final)) as Hcall by (vm_compute; reflexivity).
  split; [exact Hcall|].
  pose proof (call_only_appends one_turn_services 2 (GeminiAgent_init "demo")
                one_turn_final (Ret tt) Hcall) as (Hscenario & Hcontext & _).
  split; [exact Hscenario | exact Hcontext].
Defined.

(** *** Turns against service calls *)

Lemma count_if_snoc {A : Type} (f : A -> bool) (l : list A) (x : A) :
  count_if f (l ++ [x]) = count_if f l + (if f x then 1 else 0).
Proof.
  unfold count_if. rewrite List.filter_app, length_app. simpl.
  now destruct (f x).
Qed.

Lemma tallies_refl (s : GeminiAgent) : tallies s s.
Proof. unfold tallies. lia. Qed.

Lemma tallies_trans (a b c : GeminiAgent) : tallies a b -> tallies b c -> tallies a c.
Proof. unfold tallies. lia. Qed.

Lemma tallies_listen (s : GeminiAgent) : tallies s (record_call EvListen s).
Proof. unfold tallies. simpl. rewrite !count_if_snoc. simpl. lia. Qed.

Lemma tallies_say (svc : Services) (phase : string) (s : GeminiAgent) :
  tallies s (record_call (EvSpeak (after_generation svc phase EmptyString s).1)
               (after_generation svc phase EmptyString s).2).
Proof. unfold tallies. simpl. rewrite !count_if_snoc. simpl. lia. Qed.

Lemma tallies_turn (svc : Services) (u : string) (s : GeminiAgent) :
  tallies s
    (record_call
       (EvSpeak (after_generation svc "conversation" u
                   (with_memory (add_user_message u) (record_call EvListen s))).1)
       (after_generation svc "conversation" u
          (with_memory (add_user_message u) (record_call EvListen s))).2).
Proof. unfold tallies. simpl. rewrite !count_if_snoc. simpl. lia. Qed.

(** X3: in any call, every agent turn in the history stems from exactly
    one request to the model and is handed to [speak] exactly once, and a
    user turn is recorded only for a listening attempt: agent turns,
    generations and speech calls grow by the same number, user turns by at
    most the number of listens. *)
Theorem turns_match_service_calls
  (svc : Services) (fuel : nat) (self final : GeminiAgent) (o : outcome unit) :
  start_call svc fuel self = Some (o, final) ->
  tallies self final
  /\ (messages (memory self) = [] -> calls self = [] ->
      count_if is_agent_turn (messages (memory final))
      = count_if is_generate (calls final)
      /\ count_if is_speak (calls final) = count_if is_generate (calls final)
      /\ count_if is_user_turn (messages (memory final))
         <= count_if is_listen (calls final)).
Proof.
  intros Hcall.
  pose proof (start_call_invariant svc tallies tallies_refl tallies_trans
                (fun b s => tallies_refl s) tallies_listen (tallies_say svc)
                (tallies_turn svc) fuel self final o Hcall) as Htally.
  split; [exact Htally|].
  intros Hm Hc. unfold tallies in Htally. rewrite Hm, Hc in Htally.
  unfold count_if in *. simpl in Htally. lia.
Qed.

Lemma turns_match_service_calls_witness :
  start_call one_turn_services 2 (GeminiAgent_init "demo") = Some (Ret tt, one_turn_final)
  /\ count_if is_agent_turn (messages (memory one_turn_final)) = 3
  /\ count_if is_generate (calls one_turn_final) = 3
  /\ count_if is_speak (calls one_turn_final) = count_if is_generate (calls one_turn_final).
Proof.
  assert (start_call one_turn_services 2 (GeminiAgent_init "demo")
          = Some (Ret tt, one_turn_final)) as Hcall by (vm_compute; reflexivity).
  split; [exact Hcall|].
  split; [vm_compute; reflexivity|]. split; [vm_compute; reflexivity|].
  exact (proj1 (proj2 (proj2 (turns_match_service_calls one_turn_services 2
           (GeminiAgent_init "demo") one_turn_final (Ret tt) Hcall)
           eq_refl eq_refl))).
Defined.

(** *** The shape of the history *)

Lemma well_paired_app (a b : list message) :
  well_paired a = true -> well_paired b = true -> well_paired (a ++ b) = true.
Proof.
  intros Ha Hb. remember (length a) as n eqn:Hn.
  revert a Ha Hn. induction n as [n IH] using lt_wf_ind. intros a Ha Hn.
  destruct a as [|m a]; [exact Hb|].
  simpl in Ha |- *. destruct (msg_role m).
  - destruct a as [|m' a]; [discriminate|].
    apply andb_true_iff in Ha as [Hm' Ha]. simpl. rewrite Hm'. simpl.
    apply (IH (length a)); [simpl in Hn; lia | exact Ha | reflexivity].
  - apply (IH (length a)); [simpl in Hn; lia | exact Ha | reflexivity].
Qed.

Lemma paired_refl (s : GeminiAgent) : paired_extension s s.
Proof. exists []. now rewrite app_nil_r. Qed.

Lemma paired_trans (a b c : GeminiAgent) :
  paired_extension a b -> paired_extension b c -> paired_extension a c.
Proof.
  intros (m1 & Hm1 & Hp1) (m2 & Hm2 & Hp2). exists (m1 ++ m2).
  split; [now rewrite Hm2, Hm1, app_assoc | now apply well_paired_app].
Qed.

Lemma paired_say (svc : Services) (phase : string) (s : GeminiAgent) :
  paired_extension s
    (record_call (EvSpeak (after_generation svc phase EmptyString s).1)
       (after_generation svc phase EmptyString s).2).
Proof. eexists. split; [reflexivity | reflexivity]. Qed.

Lemma paired_turn (svc : Services) (u : string) (s : GeminiAgent) :
  paired_extension s
    (record_call
       (EvSpeak (after_generation svc "conversation" u
                   (with_memory (add_user_message u) (record_call EvListen s))).1)
       (after_generation svc "conversation" u
          (with_memory (add_user_message u) (record_call EvListen s))).2).
Proof.
  eexists. split; [simpl; now rewrite <- app_assoc | reflexivity].
Qed.

(** X4: the history a call leaves is the initial history, then the
    greeting as an agent turn, then turns in which every user turn is
    directly followed by an agent turn: the greeting always comes first and
    no user utterance is left unanswered in the history. *)
Theorem history_is_greeting_then_answered_turns
  (svc : Services) (fuel : nat) (self final : GeminiAgent) (o : outcome unit) :
  start_call svc fuel self = Some (o, final) ->
  exists greeting rest,
    messages (memory final) = messages (memory self) ++ Message agent greeting :: rest
    /\ well_paired rest = true.
Proof.
  intros Hcall.
  pose proof (start_call_invariant_after_greeting svc paired_extension
                paired_refl paired_trans (fun b s => paired_refl s)
                (fun s => paired_refl (record_call EvListen s))
                (paired_say svc) (paired_turn svc) fuel self final o Hcall)
    as (rest & Hrest & Hpaired).
  eexists _, rest. split; [|exact Hpaired].
  rewrite Hrest. simpl. now rewrite <- app_assoc.
Qed.

Lemma history_is_greeting_then_answered_turns_witness :
  start_call one_turn_services 2 (GeminiAgent_init "demo") = Some (Ret tt, one_turn_final)
  /\ messages (memory one_turn_final)
     = [Message agent "Namaste ji"; Message user "kal 3 baje theek hai";
        Message agent "Namaste ji"; Message agent "Namaste ji"]
  /\ exists greeting rest,
       messages (memory one_turn_final) = Message agent greeting :: rest
       /\ well_paired rest = true.
Proof.
  assert (start_call one_turn_services 2 (GeminiAgent_init "demo")
          = Some (Ret tt, one_turn_final)) as Hcall by (vm_compute; reflexivity).
  split; [exact Hcall|]. split; [vm_compute; reflexivity|].
  exact (history_is_greeting_then_answered_turns one_turn_services 2
           (GeminiAgent_init "demo") one_turn_final (Ret tt) Hcall).
Defined.

(** ** Scenario data and templates *)

Lemma in_scenarios (scenario : string) :
  scenario ∈ scenarios <->
  scenario = "demo" \/ scenario = "interview" \/ scenario = "payment".
Proof.
  unfold scenarios. rewrite list_elem_of_In. simpl. intuition congruence.
Qed.

Lemma in_phases (phase : string) :
  phase ∈ phases <->
  phase = "greeting" \/ phase = "conversation" \/ phase = "farewell".
Proof.
  unfold phases. rewrite list_elem_of_In. simpl. intuition congruence.
Qed.

(** Replace a closed term by its value in a hypothesis. *)
Ltac evaluate_in t H :=
  let E := fresh "E" in
  eassert (t = _) as E by (vm_compute; reflexivity);
  rewrite E in H; clear E.

(** X5: the data loaded for a supported scenario covers its templates:
    every placeholder of each of its three templates, apart from the
    conversation history and the user input, is filled with a non-empty
    value that [_load_scenario_data] stored in the profile or the knowledge
    bucket (never with the empty default); and every key that was loaded
    is used by one of the scenario's templates. *)
Theorem scenario_data_covers_templates (scenario : string) :
  scenario ∈ scenarios ->
  let self := GeminiAgent_init scenario in
  let profile := get_context "profile" ∅ (memory self) in
  let knowledge := get_context "knowledge" ∅ (memory self) in
  (forall phase name user_input,
     phase ∈ phases ->
     name ∈ template_fields (catalog_lookup scenario phase) ->
     name = "conversation_history" \/ name = "user_input"
     \/ exists v,
          kwargs_get (format_kwargs user_input self) name = Some v
          /\ v <> EmptyString
          /\ (profile !! name = Some v \/ knowledge !! name = Some v))
  /\ (forall name v,
     profile !! name = Some v \/ knowledge !! name = Some v ->
     exists phase,
       phase ∈ phases /\ name ∈ template_fields (catalog_lookup scenario phase)).
Proof.
  intros Hscenario self profile knowledge. subst self profile knowledge.
  apply in_scenarios in Hscenario. split.
  - intros phase name user_input Hphase Hname.
    apply in_phases in Hphase. rewrite list_elem_of_In in Hname.
    destruct Hscenario as [-> | [-> | ->]]; destruct Hphase as [-> | [-> | ->]];
      match type of Hname with In _ ?l => evaluate_in l Hname end;
      simpl in Hname;
      repeat (destruct Hname as [<- | Hname];
              [first [ left; reflexivity
                     | right; left; reflexivity
                     | right; right; eexists;
                       split; [vm_compute; reflexivity|];
                       split; [discriminate|];
                       first [left; vm_compute; reflexivity
                             | right; vm_compute; reflexivity] ]|]);
      contradiction.
  - intros name v Hloaded.
    assert (forall m : gmap string string,
              m !! name = Some v -> In (name, v) (map_to_list m)) as Hlist.
    { intros m Hm. apply list_elem_of_In. now apply elem_of_map_to_list. }
    destruct Hscenario as [-> | [-> | ->]];
      destruct Hloaded as [Hm | Hm]; apply Hlist in Hm;
      match type of Hm with In _ ?l => evaluate_in l Hm end;
      simpl in Hm;
      repeat (destruct Hm as [Hm | Hm];
              [injection Hm as <- <-;
               first [ exists "greeting"; split;
                       [apply in_phases; tauto
                       | apply list_elem_of_In; vm_compute; tauto]
                     | exists "conversation"; split;
                       [apply in_phases; tauto
                       | apply list_elem_of_In; vm_compute; tauto] ]|]);
      contradiction.
Qed.

Lemma scenario_data_covers_templates_witness :
  "payment" ∈ scenarios
  /\ "greeting" ∈ phases
  /\ "due_amount" ∈ template_fields (catalog_lookup "payment" "greeting")
  /\ kwargs_get (format_kwargs "" (GeminiAgent_init "payment")) "due_amount"
     = Some "₹4,85,000".
Proof.
  assert ("payment" ∈ scenarios) as Hs by (apply in_scenarios; tauto).
  assert ("greeting" ∈ phases) as Hp by (apply in_phases; tauto).
  assert ("due_amount" ∈ template_fields (catalog_lookup "payment" "greeting"))
    as Hf by (apply list_elem_of_In; vm_compute; tauto).
  split; [exact Hs|]. split; [exact Hp|]. split; [exact Hf|].
  destruct (proj1 (scenario_data_covers_templates "payment" Hs)
              "greeting" "due_amount" "" Hp Hf) as [H | [H | (v & Hv & _)]];
    [discriminate H | discriminate H |].
  vm_compute. reflexivity.
Defined.

Lemma load_unknown_scenario (scenario : string) (mem : ConversationMemory) :
  scenario ∉ scenarios -> _load_scenario_data scenario mem = mem.
Proof.
  rewrite in_scenarios. intros Hout. unfold _load_scenario_data.
  destruct (String.eqb_spec scenario "demo") as [->|_]; [tauto|].
  destruct (String.eqb_spec scenario "interview") as [->|_]; [tauto|].
  destruct (String.eqb_spec scenario "payment") as [->|_]; [tauto|].
  reflexivity.
Qed.

Lemma catalog_lookup_unknown_scenario (scenario phase : string) :
  scenario ∉ scenarios -> catalog_lookup scenario phase = EmptyString.
Proof.
  intros Hout.
  destruct (catalog_lookup_cases scenario phase) as [[[Hin _] _] | [_ Hempty]];
    [contradiction | exact Hempty].
Qed.

(** X6: an agent built for a scenario other than the three known ones is
    not rejected: nothing is loaded into its profile and knowledge, every
    phase finds the empty template, and each chain therefore sends the
    empty prompt to the model and records whatever comes back as a turn. *)
Theorem unknown_scenario_sends_empty_prompts
  (svc : Services) (unknown : string) :
  unknown ∉ scenarios ->
  memory (GeminiAgent_init unknown) = ConversationMemory_init
  /\ (forall self phase user_input,
        scenario self = unknown ->
        prompt_text phase user_input self = EmptyString)
  /\ (forall self,
        scenario self = unknown ->
        let text := response_text (model svc (calls self) EmptyString) in
        run_greeting_chain svc self
        = Some (Ret text,
                with_memory (add_agent_message text)
                  (record_call (EvGenerate EmptyString) self)))
  /\ (forall self user_input,
        scenario self = unknown ->
        let heard := with_memory (add_user_message user_input) self in
        let text := response_text (model svc (calls self) EmptyString) in
        run_conversation_chain svc user_input self
        = Some (Ret text,
                with_memory (add_agent_message text)
                  (record_call (EvGenerate EmptyString) heard))).
Proof.
  intros Hout.
  assert (forall self phase user_input,
            scenario self = unknown ->
            prompt_text phase user_input self = EmptyString) as Hprompt.
  { intros self phase user_input Hs. unfold prompt_text.
    rewrite Hs, catalog_lookup_unknown_scenario by assumption. reflexivity. }
  split; [unfold GeminiAgent_init; simpl; now apply load_unknown_scenario|].
  split; [exact Hprompt|]. split.
  - intros self Hs. cbv zeta. rewrite run_greeting_chain_eq.
    unfold after_generation. cbv zeta. simpl. now rewrite Hprompt.
  - intros self user_input Hs. cbv zeta. rewrite run_conversation_chain_eq.
    unfold after_generation. cbv zeta. simpl. now rewrite Hprompt.
Qed.

Lemma unknown_scenario_sends_empty_prompts_witness :
  ("support" ∉ scenarios)
  /\ run_greeting_chain mic_down_services (GeminiAgent_init "support")
     = Some (Ret "Namaste ji",
             with_memory (add_agent_message "Namaste ji")
               (record_call (EvGenerate EmptyString) (GeminiAgent_init "support"))).
Proof.
  assert ("support" ∉ scenarios) as Hout
    by (rewrite in_scenarios; intuition discriminate).
  split; [exact Hout|].
  exact (proj1 (proj2 (proj2 (unknown_scenario_sends_empty_prompts
           mic_down_services "support" Hout)))
           (GeminiAgent_init "support") eq_refl).
Defined.

(** ** The greeting and farewell chains *)

(** X7: like a turn, the greeting and the farewell never raise: each asks
    the model once and appends exactly one agent turn holding the model's
    text, or the fallback apology when the model fails, which is also what
    the chain returns to be spoken. *)
Theorem greeting_and_farewell_append_one_turn (svc : Services) (self : GeminiAgent) :
  (exists prompt self',
     let text := response_text (model svc (calls self) prompt) in
     run_greeting_chain svc self = Some (Ret text, self')
     /\ messages (memory self') = messages (memory self) ++ [Message agent text]
     /\ calls self' = calls self ++ [EvGenerate prompt]
     /\ (forall e, model svc (calls self) prompt = GenError e -> text = fallback_text))
  /\ (exists prompt self',
     let text := response_text (model svc (calls self) prompt) in
     run_farewell_chain svc self = Some (Ret text, self')
     /\ messages (memory self') = messages (memory self) ++ [Message agent text]
     /\ calls self' = calls self ++ [EvGenerate prompt]
     /\ (forall e, model svc (calls self) prompt = GenError e -> text = fallback_text)).
Proof.
  split.
  - eexists _, _. cbv zeta. rewrite run_greeting_chain_eq.
    split; [reflexivity|]. repeat split. intros e ->. reflexivity.
  - eexists _, _. cbv zeta. rewrite run_farewell_chain_eq.
    split; [reflexivity|]. repeat split. intros e ->. reflexivity.
Qed.

Lemma greeting_and_farewell_append_one_turn_witness :
  exists self',
    run_greeting_chain model_down_services (GeminiAgent_init "interview")
    = Some (Ret fallback_text, self')
    /\ messages (memory self') = [Message agent fallback_text].
Proof.
  destruct (proj1 (greeting_and_farewell_append_one_turn model_down_services
                     (GeminiAgent_init "interview")))
    as (prompt & self' & Hrun & Hmessages & _ & Hfallback).
  exists self'.
  rewrite (Hfallback (OtherError "ServiceUnavailable" "503") eq_refl)
    in Hrun, Hmessages.
  split; [exact Hrun | exact Hmessages].
Defined.

(** ** What the model is shown *)

Lemma strip_prefix_sound (p : string) :
  forall t rest, strip_prefix p t = Some rest -> t = p +:+ rest.
Proof.
  induction p as [|a p IH]; intros t rest H; simpl in H.
  - now inversion H.
  - destruct t as [|b t]; [discriminate|].
    destruct (Ascii.eqb_spec a b) as [->|_]; [|discriminate].
    rewrite string_app_cons. f_equal. now apply IH.
Qed.

Lemma split_at_sound (needle : string) :
  forall t pre post,
    split_at needle t = Some (pre, post) -> t = pre +:+ needle +:+ post.
Proof.
  induction t as [|c t IH]; intros pre post H.
  - simpl in H. destruct (strip_prefix needle EmptyString) eqn:Hp; [|discriminate].
    inversion H; subst. rewrite string_app_nil_l. now apply strip_prefix_sound.
  - cbn [split_at] in H.
    destruct (strip_prefix needle (String c t)) eqn:Hp.
    + inversion H; subst. rewrite string_app_nil_l. now apply strip_prefix_sound.
    + destruct (split_at needle t) as [[pre' post']|]; [|discriminate].
      inversion H; subst. rewrite string_app_cons. f_equal. now apply IH.
Qed.

Lemma field_text_app (name post : string) :
  field_text name +:+ post = String "{"%char (name +:+ String "}"%char post).
Proof.
  unfold field_text. rewrite string_app_cons, string_app_assoc.
  now rewrite string_app_cons.
Qed.

Lemma formats_with_blanks (s user_input : string) (self : GeminiAgent) :
  succeeds (str_format s blank_kwargs) = true ->
  exists r, str_format s (format_kwargs user_input self) = Some (Ret r).
Proof.
  unfold str_format. intros H.
  rewrite (format_from_same_keys blank_kwargs (format_kwargs user_input self))
    in H by reflexivity.
  destruct (format_from _ _ _) as [[r|e]|]; try discriminate. eauto.
Qed.

(** Formatting looks at the keyword arguments through the fields of the
    template only. *)
Lemma resolve_agree (kw1 kw2 : list (string * string)) (name : string) :
  kwargs_get kw1 name = kwargs_get kw2 name ->
  resolve_field kw1 name = resolve_field kw2 name.
Proof. unfold resolve_field. now intros ->. Qed.

Lemma format_from_agree (kw1 kw2 : list (string * string)) :
  forall t st,
    (forall name, In name (field_names_from st t) ->
       kwargs_get kw1 name = kwargs_get kw2 name) ->
    format_from kw1 st t = format_from kw2 st t.
Proof.
  induction t as [|c t IH]; intros st Hagree; [reflexivity|].
  simpl in Hagree |- *.
  destruct (scan_step st c) as [st' | c' st' | name | name | e].
  - now apply IH.
  - f_equal. now apply IH.
  - unfold end_simple.
    rewrite (resolve_agree kw1 kw2 name) by (apply Hagree; now left).
    rewrite (IH InText) by (intros n Hn; apply Hagree; now right).
    reflexivity.
  - unfold end_complex.
    now rewrite (resolve_agree kw1 kw2 name) by (apply Hagree; now left).
  - reflexivity.
Qed.

(** Apart from the history and the user input, the keyword arguments are
    read off the context. *)
Lemma format_kwargs_context (u1 u2 : string) (s1 s2 : GeminiAgent) (name : string) :
  context (memory s1) = context (memory s2) ->
  is_dynamic name = false ->
  kwargs_get (format_kwargs u1 s1) name = kwargs_get (format_kwargs u2 s2) name.
Proof.
  intros Hctx Hname. apply orb_false_iff in Hname as [Hhistory Hinput].
  unfold format_kwargs, get_context. rewrite Hctx.
  cbn [kwargs_get]. rewrite Hhistory, Hinput.
  repeat (destruct (String.eqb _ name); [reflexivity|]). reflexivity.
Qed.

Lemma fixed_piece_text (t user_input : string) (self other : GeminiAgent) :
  fixed_piece t = true ->
  context (memory other) = context (memory self) ->
  str_format t (format_kwargs user_input other) = Some (Ret (piece_text t self)).
Proof.
  unfold fixed_piece. intros H Hctx. apply andb_true_iff in H as [Hformats Hfields].
  destruct (formats_with_blanks t EmptyString self Hformats) as [r Hr].
  unfold piece_text. rewrite Hr. rewrite <- Hr. unfold str_format.
  apply format_from_agree. intros name Hin.
  apply format_kwargs_context; [exact Hctx|].
  rewrite forallb_forall in Hfields. apply negb_true_iff. now apply Hfields.
Qed.

Lemma format_history_then_input (t : string) (self : GeminiAgent) :
  has_history_then_input t = true ->
  exists a b c,
    forall other user_input,
      context (memory other) = context (memory self) ->
      str_format t (format_kwargs user_input other)
      = Some (Ret (a +:+ get_conversation_history (memory other)
                     +:+ b +:+ user_input +:+ c)).
Proof.
  unfold has_history_then_input. intros H.
  destruct (split_at _ t) as [[pre rest]|] eqn:Hsplit1; [|discriminate].
  destruct (split_at _ rest) as [[mid post]|] eqn:Hsplit2; [|discriminate].
  apply andb_true_iff in H as [H Hpost]. apply andb_true_iff in H as [Hpre Hmid].
  apply split_at_sound in Hsplit1, Hsplit2.
  exists (piece_text pre self), (piece_text mid self), (piece_text post self).
  intros other user_input Hctx.
  subst t rest. rewrite !field_text_app.
  apply format_around_field;
    [reflexivity | reflexivity | now apply fixed_piece_text|].
  apply format_around_field;
    [reflexivity | reflexivity | now apply fixed_piece_text..].
Qed.

Lemma format_history (t : string) (self : GeminiAgent) :
  has_history t = true ->
  exists a b,
    forall other user_input,
      context (memory other) = context (memory self) ->
      str_format t (format_kwargs user_input other)
      = Some (Ret (a +:+ get_conversation_history (memory other) +:+ b)).
Proof.
  unfold has_history. intros H.
  destruct (split_at _ t) as [[pre post]|] eqn:Hsplit; [|discriminate].
  apply andb_true_iff in H as [Hpre Hpost].
  apply split_at_sound in Hsplit.
  exists (piece_text pre self), (piece_text post self).
  intros other user_input Hctx.
  subst t. rewrite field_text_app.
  apply format_around_field;
    [reflexivity | reflexivity | now apply fixed_piece_text..].
Qed.

(** X8: in a supported scenario the model is shown the conversation
    verbatim.  The prompt of a turn is a text fixed by the scenario and its
    profile and knowledge, the rendered history (which already ends with
    the new user turn), a second fixed text, the utterance once more, and
    a third fixed text; the farewell prompt is a fixed text, the whole
    rendered history and a fixed text.  The fixed texts are the same
    whatever was said so far and whatever is said now, so braces or other
    special characters in what was said do not disturb the formatting. *)
Theorem prompts_embed_the_conversation (svc : Services) (self : GeminiAgent) :
  scenario self ∈ scenarios ->
  exists a b c a' b',
    forall other user_input,
      scenario other = scenario self ->
      context (memory other) = context (memory self) ->
      (exists after,
         let history := get_conversation_history (memory other)
                          +:+ "Customer: " +:+ user_input +:+ newline in
         let prompt := a +:+ history +:+ b +:+ user_input +:+ c in
         run_conversation_chain svc user_input other
         = Some (Ret (response_text (model svc (calls other) prompt)), after)
         /\ calls after = calls other ++ [EvGenerate prompt])
      /\ (exists after,
         let prompt := a' +:+ get_conversation_history (memory other) +:+ b' in
         run_farewell_chain svc other
         = Some (Ret (response_text (model svc (calls other) prompt)), after)
         /\ calls after = calls other ++ [EvGenerate prompt]).
Proof.
  intros Hscenario. apply in_scenarios in Hscenario.
  assert (has_history_then_input (catalog_lookup (scenario self) "conversation")
          = true) as Hturn
    by (destruct Hscenario as [-> | [-> | ->]]; vm_compute; reflexivity).
  assert (has_history (catalog_lookup (scenario self) "farewell") = true) as Hbye
    by (destruct Hscenario as [-> | [-> | ->]]; vm_compute; reflexivity).
  destruct (format_history_then_input _ self Hturn) as (a & b & c & Hformat).
  destruct (format_history _ self Hbye) as (a' & b' & Hformat').
  exists a, b, c, a', b'. intros other user_input Hsame Hctx. split.
  - set (heard := with_memory (add_user_message user_input) other).
    specialize (Hformat heard user_input Hctx).
    change (memory heard) with (add_user_message user_input (memory other)) in Hformat.
    rewrite history_after_user in Hformat.
    eexists. cbv zeta.
    rewrite run_conversation_chain_eq. fold heard.
    unfold after_generation, prompt_text.
    change (scenario heard) with (scenario other). rewrite Hsame, Hformat.
    cbv zeta. split; reflexivity.
  - specialize (Hformat' other EmptyString Hctx).
    eexists. cbv zeta.
    rewrite run_farewell_chain_eq.
    unfold after_generation, prompt_text. rewrite Hsame, Hformat'. cbv zeta.
    split; reflexivity.
Qed.

Lemma prompts_embed_the_conversation_witness :
  scenario (GeminiAgent_init "payment") ∈ scenarios
  /\ exists a b c,
       forall user_input, exists after,
         run_conversation_chain model_down_services user_input
           (GeminiAgent_init "payment")
         = Some (Ret fallback_text, after)
         /\ calls after
            = [EvGenerate (a +:+ ("Customer: " +:+ user_input +:+ newline)
                             +:+ b +:+ user_input +:+ c)].
Proof.
  assert (scenario (GeminiAgent_init "payment") ∈ scenarios) as Hs
    by (apply in_scenarios; simpl; tauto).
  split; [exact Hs|].
  destruct (prompts_embed_the_conversation model_down_services
              (GeminiAgent_init "payment") Hs)
    as (a & b & c & a' & b' & Hprompts).
  exists a, b, c. intros user_input.
  destruct (proj1 (Hprompts (GeminiAgent_init "payment") user_input
                     eq_refl eq_refl)) as (after & Hrun & Hcalls).
  exists after. split; [exact Hrun | exact Hcalls].
Defined.

(** ** Silence on the line *)

Lemma calls_after_listens (k : nat) (self : GeminiAgent) :
  calls (Nat.iter k (record_call EvListen) self) = calls self ++ repeat EvListen k
  /\ memory (Nat.iter k (record_call EvListen) self) = memory self
  /\ running (Nat.iter k (record_call EvListen) self) = running self.
Proof.
  induction k as [|k (IHc & IHm & IHr)]; simpl.
  - now rewrite app_nil_r.
  - rewrite IHc, IHm, IHr. repeat split.
    rewrite <- app_assoc. f_equal.
    symmetry. apply repeat_cons.
Qed.

(** X9: a run of failed or empty recognitions, however long, is skipped as
    a whole: after [k] of them the loop is where it would be with [k] fewer
    iterations left, the history, the context and the running flag are
    untouched, and only the [k] listening attempts were recorded. *)
Theorem silent_stretch_is_skipped
  (svc : Services) (k fuel : nat) (self : GeminiAgent) :
  running self = true ->
  (forall i, i < k ->
     heard_nothing (recognizer svc (calls self ++ repeat EvListen i))) ->
  let waited := Nat.iter k (record_call EvListen) self in
  conversation_loop svc (k + fuel) self = conversation_loop svc fuel waited
  /\ memory waited = memory self
  /\ running waited = true
  /\ calls waited = calls self ++ repeat EvListen k.
Proof.
  intros Hrun Hsilent waited. subst waited.
  destruct (calls_after_listens k self) as (Hcalls & Hmemory & Hrunning).
  split; [|now rewrite Hmemory, Hrunning, Hcalls].
  clear Hcalls Hmemory Hrunning. revert fuel.
  induction k as [|k IH]; intros fuel; [reflexivity|].
  assert (forall i, i < k ->
            heard_nothing (recognizer svc (calls self ++ repeat EvListen i)))
    as Hfirst by (intros i Hi; apply Hsilent; lia).
  rewrite Nat.add_succ_comm, (IH Hfirst (S fuel)).
  destruct (calls_after_listens k self) as (Hcalls & _ & Hrunning).
  rewrite conversation_loop_skip.
  - reflexivity.
  - now rewrite Hrunning.
  - apply recognize_speech_nothing. rewrite Hcalls. apply Hsilent. lia.
Qed.

Lemma silent_stretch_is_skipped_witness :
  let svc := scripted_services [WaitTimeoutError; UnknownValueError; Heard "bye"] in
  let self := with_running true (GeminiAgent_init "demo") in
  running self = true
  /\ (forall i, i < 2 ->
        heard_nothing (recognizer svc (calls self ++ repeat EvListen i)))
  /\ conversation_loop svc (2 + 1) self
     = conversation_loop svc 1 (Nat.iter 2 (record_call EvListen) self).
Proof.
  intros svc self.
  assert (forall i, i < 2 ->
            heard_nothing (recognizer svc (calls self ++ repeat EvListen i)))
    as Hsilent.
  { intros i Hi. left.
    destruct i as [|[|i]]; [reflexivity | reflexivity | lia]. }
  split; [reflexivity|]. split; [exact Hsilent|].
  exact (proj1 (silent_stretch_is_skipped svc 2 1 self eq_refl Hsilent)).
Defined.

(** X10: the loop has no give-up rule.  With a line on which nothing is
    ever recognised the loop never ends, whatever the number of iterations
    it is given, and neither does a call whose greeting could be spoken:
    only an exit command or an escaping exception ends a call. *)
Theorem silence_never_ends_the_call (svc : Services) :
  (forall log, heard_nothing (recognizer svc log)) ->
  (forall fuel self, running self = true -> conversation_loop svc fuel self = None)
  /\ (forall fuel self,
        (forall log text e, tts svc log text <> SpeakCrash e) ->
        start_call svc fuel self = None).
Proof.
  intros Hsilent.
  assert (forall fuel self, running self = true ->
            conversation_loop svc fuel self = None) as Hloop.
  { induction fuel as [|fuel IH]; intros self Hrun; [reflexivity|].
    rewrite conversation_loop_skip; [now apply IH | exact Hrun |].
    apply recognize_speech_nothing, Hsilent. }
  split; [exact Hloop|].
  intros fuel self Hspeak. unfold start_call. rewrite call_body_eq. cbv zeta.
  unfold speak at 1.
  destruct (tts svc _ _) as [| e | e] eqn:Htts;
    [now rewrite Hloop | now rewrite Hloop | now apply Hspeak in Htts].
Qed.

Lemma silence_never_ends_the_call_witness :
  (forall log, heard_nothing (recognizer (scripted_services []) log))
  /\ start_call (scripted_services []) 1000 (GeminiAgent_init "demo") = None.
Proof.
  assert (forall log, heard_nothing (recognizer (scripted_services []) log))
    as Hsilent.
  { intros log. left. simpl. now destruct (count_listens log). }
  split; [exact Hsilent|].
  apply (proj2 (silence_never_ends_the_call (scripted_services []) Hsilent)).
  intros log text e. discriminate.
Defined.

(** ** The driver *)

Lemma scenario_map_spec (choice : string) :
  scenario_map !! choice =
    if decide (choice = "1") then Some "demo"
    else if decide (choice = "2") then Some "interview"
    else if decide (choice = "3") then Some "payment"
    else None.
Proof.
  unfold scenario_map.
  repeat (rewrite lookup_insert; case_decide; subst; simpl);
    repeat case_decide; try congruence; reflexivity.
Qed.

Lemma start_call_keeps_scenario
  (svc : Services) (fuel : nat) (self final : GeminiAgent) (o : outcome unit) :
  start_call svc fuel self = Some (o, final) ->
  scenario final = scenario self /\ o = Ret tt /\ running final = false.
Proof.
  intros Hcall. split.
  - pose proof (start_call_invariant svc extends extends_refl extends_trans
                  (fun b s => extends_refl s) (extends_record_call EvListen)
                  (extends_say svc) (extends_turn svc) fuel self final o Hcall)
      as (Hs & _).
    exact Hs.
  - unfold start_call, end_call in Hcall.
    destruct (call_body svc fuel _) as [[[[]|e] s]|]; inversion Hcall; now split.
Qed.

(** X11: [main] starts a call only for the choices 1, 2 and 3 (white space
    around the choice is ignored); any other input ends the program without
    an agent being built or a service being called.  A call started by
    [main] runs in the scenario chosen, which has a template for each of
    the three phases, so the empty-template default of the lookup is never
    reached from [main]; it ends with the running flag cleared. *)
Theorem main_starts_only_known_scenarios
  (svc : Services) (fuel : nat) (line : string) :
  (is_ascii line = true ->
   strip line <> "1" -> strip line <> "2" -> strip line <> "3" ->
   main svc fuel line = Some NoCall)
  /\ (forall o final,
       main svc fuel line = Some (Called o final) ->
       (strip line = "1" /\ scenario final = "demo"
        \/ strip line = "2" /\ scenario final = "interview"
        \/ strip line = "3" /\ scenario final = "payment")
       /\ o = Ret tt
       /\ running final = false
       /\ (forall phase, phase ∈ phases ->
             in_catalog (scenario final) phase
             /\ catalog_lookup (scenario final) phase ∈ catalog_templates))
  /\ (forall choice chosen,
       (choice, chosen) ∈ [("1", "demo"); ("2", "interview"); ("3", "payment")] ->
       strip line = choice ->
       main svc fuel line
       = match start_call svc fuel (GeminiAgent_init chosen) with
         | Some (o, final) => Some (Called o final)
         | None => None
         end).
Proof.
  unfold main. cbv zeta. rewrite scenario_map_spec.
  split; [|split].
  - intros _ H1 H2 H3. repeat case_decide; try contradiction. reflexivity.
  - intros o final Hmain.
    assert (forall sc,
              sc ∈ scenarios ->
              start_call svc fuel (GeminiAgent_init sc) = Some (o, final) ->
              scenario final = sc /\ o = Ret tt /\ running final = false
              /\ (forall phase, phase ∈ phases ->
                    in_catalog (scenario final) phase
                    /\ catalog_lookup (scenario final) phase ∈ catalog_templates))
      as Hcalled.
    { intros sc Hsc Hcall.
      apply start_call_keeps_scenario in Hcall as (Hs & Ho & Hr).
      simpl in Hs. repeat split; try assumption; rewrite Hs.
      - exact Hsc.
      - destruct (catalog_lookup_cases sc phase) as [[_ Hin] | [Hout _]];
          [exact Hin | exfalso; apply Hout; now split]. }
    repeat case_decide; simpl in Hmain; try discriminate;
      match type of Hmain with
      | context [GeminiAgent_init ?sc] =>
          destruct (start_call svc fuel (GeminiAgent_init sc))
            as [[o' final']|] eqn:Hcall; [|discriminate];
          injection Hmain as -> ->;
          destruct (Hcalled sc) as (Hs & Ho & Hr & Hphases);
            [apply in_scenarios; tauto | exact Hcall |];
          (split; [tauto|]); (split; [exact Ho|]); (split; [exact Hr|]);
          exact Hphases
      end.
  - intros choice sc Hpair Hchoice.
    rewrite list_elem_of_In in Hpair. simpl in Hpair.
    destruct Hpair as [Hp | [Hp | [Hp | []]]]; injection Hp as <- <-;
      rewrite Hchoice; reflexivity.
Qed.

Lemma main_starts_only_known_scenarios_witness :
  (is_ascii " 9 " = true /\ strip " 9 " = "9"
   /\ main mic_down_services 3 " 9 " = Some NoCall)
  /\ (strip "2 " = "2"
      /\ main one_turn_services 2 "2 "
         = match start_call one_turn_services 2 (GeminiAgent_init "interview") with
           | Some (o, final) => Some (Called o final)
           | None => None
           end).
Proof.
  split.
  - split; [reflexivity|]. split; [reflexivity|].
    apply (proj1 (main_starts_only_known_scenarios mic_down_services 3 " 9 "));
      [reflexivity | discriminate | discriminate | discriminate].
  - split; [reflexivity|].
    apply (proj2 (proj2 (main_starts_only_known_scenarios one_turn_services 2 "2 "))
             "2" "interview"); [|reflexivity].
    apply list_elem_of_In. simpl. tauto.
Defined.

(** ** Speech output *)

Lemma keep_speakable_ascii (s : string) :
  is_ascii s = true -> is_ascii (keep_speakable s) = true.
Proof.
  induction s as [|c s IH]; simpl; [reflexivity|].
  intros H. apply andb_true_iff in H as [Hc Hs].
  destruct (is_speakable c); simpl; [rewrite Hc|]; now apply IH.
Qed.

Lemma keep_speakable_all (s : string) :
  string_forall is_speakable (keep_speakable s) = true.
Proof.
  induction s as [|c s IH]; simpl; [reflexivity|].
  destruct (is_speakable c) eqn:Hc; simpl; [rewrite Hc|]; exact IH.
Qed.

Lemma keep_speakable_id (s : string) :
  string_forall is_speakable s = true -> keep_speakable s = s.
Proof.
  induction s as [|c s IH]; simpl; [reflexivity|].
  intros H. apply andb_true_iff in H as [-> Hs]. now rewrite IH.
Qed.

Lemma keep_speakable_length (s : string) :
  String.length (keep_speakable s) <= String.length s.
Proof.
  induction s as [|c s IH]; simpl; [lia|].
  destruct (is_speakable c); simpl; lia.
Qed.

(** X12: the text [speak] passes on for synthesis consists only of
    letters, digits, underscores, white space and the marks . , ! ? - ; the
    characters kept stay in order and nothing is added, text made of such
    characters only is passed on unchanged, and cleaning a cleaned text
    changes nothing. *)
Theorem clean_text_keeps_speakable (text cleaned : string) :
  clean_text text = Some cleaned ->
  string_forall is_speakable cleaned = true
  /\ String.length cleaned <= String.length text
  /\ clean_text cleaned = Some cleaned
  /\ (string_forall is_speakable text = true -> cleaned = text).
Proof.
  unfold clean_text. destruct (is_ascii text) eqn:Hascii; [|discriminate].
  intros H. inversion H; subst. clear H.
  split; [apply keep_speakable_all|].
  split; [apply keep_speakable_length|].
  split; [|apply keep_speakable_id].
  rewrite keep_speakable_ascii by assumption.
  now rewrite keep_speakable_id by apply keep_speakable_all.
Qed.

Lemma clean_text_keeps_speakable_witness :
  clean_text "Sorry, I'm *having* trouble #1 - ok?"
    = Some "Sorry, Im having trouble 1 - ok?"
  /\ clean_text "Sorry, Im having trouble 1 - ok?"
     = Some "Sorry, Im having trouble 1 - ok?".
Proof.
  assert (clean_text "Sorry, I'm *having* trouble #1 - ok?"
          = Some "Sorry, Im having trouble 1 - ok?") as H by reflexivity.
  split; [exact H|].
  exact (proj1 (proj2 (proj2 (clean_text_keeps_speakable _ _ H)))).
Defined.

Lemma wait_playback_ends (dev : AudioDevice) (fuel : nat) :
  forall first n,
    first <= n -> n < first + fuel -> music_get_busy dev n <> Busy ->
    exists r, wait_playback dev fuel first = Some r.
Proof.
  induction fuel as [|fuel IH]; intros first n Hle Hlt Hidle; [lia|].
  simpl. destruct (music_get_busy dev first) eqn:Hpoll; eauto.
  apply (IH (S first) n); [|lia | exact Hidle].
  destruct (Nat.eq_dec first n) as [->|]; [contradiction | lia].
Qed.

Ltac solve_files := repeat split; set_unfold; intros; intuition congruence.

Lemma play_audio_files (dev : AudioDevice) (self : SpeechHandler) (fuel : nat)
  (cleaned : string) (slow : bool) (files played : gset string) (r : step) :
  play_audio dev self fuel cleaned slow files = Some (r, played) ->
  played = files \/ played = {[audio_file dev]} ∪ files.
Proof.
  unfold play_audio. intros Hplay.
  destruct (gtts_new dev _ _ _ _); [|inversion Hplay; auto].
  destruct (gtts_save dev _) as [|e []]; try (inversion Hplay; auto; fail).
  destruct (music_load dev _); [|inversion Hplay; auto].
  destruct (music_play dev); [|inversion Hplay; auto].
  destruct (wait_playback dev fuel 0); inversion Hplay; auto.
Qed.

Lemma cleanup_audio_spec (dev : AudioDevice) (played files' : gset string) o :
  cleanup_audio dev played = (o, files') ->
  (o = Ret tt -> files' = played ∖ {[audio_file dev]})
  /\ (forall e, o = Raise e ->
        files' = played
        /\ (music_unload dev = Fails e \/ os_remove dev (audio_file dev) = Fails e))
  /\ (music_unload dev = Done -> os_remove dev (audio_file dev) = Done -> o = Ret tt).
Proof.
  unfold cleanup_audio. intros Hclean.
  destruct (music_unload dev) as [|eu].
  - case_bool_decide as Hexists.
    + destruct (os_remove dev (audio_file dev)) as [|er];
        inversion Hclean; subst; clear Hclean.
      * repeat split; intros; discriminate.
      * split; [discriminate|]. split; [|discriminate].
        intros e He. inversion He; subst. auto.
    + inversion Hclean; subst; clear Hclean.
      split; [intros _; solve_files|]. split; [discriminate | reflexivity].
  - inversion Hclean; subst; clear Hclean.
    split; [discriminate|]. split; [|discriminate].
    intros e He. inversion He; subst. auto.
Qed.

Lemma wait_playback_busy (dev : AudioDevice) (fuel : nat) :
  (forall n, music_get_busy dev n = Busy) ->
  forall first, wait_playback dev fuel first = None.
Proof.
  intros Hbusy. induction fuel as [|fuel IH]; intros first; [reflexivity|].
  simpl. rewrite Hbusy. apply IH.
Qed.

Lemma play_audio_ends (dev : AudioDevice) (self : SpeechHandler) (fuel : nat)
  (cleaned : string) (slow : bool) (files : gset string) :
  (exists n, n < fuel /\ music_get_busy dev n <> Busy) ->
  exists r played, play_audio dev self fuel cleaned slow files = Some (r, played).
Proof.
  intros (n & Hn & Hidle).
  destruct (wait_playback_ends dev fuel 0 n) as [r Hr]; [lia | lia | exact Hidle |].
  unfold play_audio. rewrite Hr.
  destruct (gtts_new dev _ _ _ _); [|eauto].
  destruct (gtts_save dev _); [|eauto].
  destruct (music_load dev _); [|eauto].
  destruct (music_play dev); eauto.
Qed.

(** X13: [speak] lets no failure of synthesis, saving, loading, playing
    or polling escape, and when it returns the audio file of this
    utterance does not exist: the files present afterwards are those
    present before, without that file.  An exception leaves [speak] only
    when printing the reply or the error message, unloading the player or
    removing the file fails; no other file is ever touched.  When the
    reply cannot be printed nothing is synthesised and the files stay as
    they were.  The function returns once the player stops being busy,
    and it never returns while the player stays busy. *)
Theorem speak_absorbs_failures_and_cleans_up
  (dev : AudioDevice) (self : SpeechHandler)
  (text : string) (slow : bool) (files : gset string) :
  let cleaned_text := cleaned_for (re_sub dev) text in
  (forall fuel o files',
     speak_steps dev self fuel text slow files = Some (o, files') ->
     (o = Ret tt -> files' = files ∖ {[audio_file dev]})
     /\ (forall e, o = Raise e ->
           print_reply dev cleaned_text = Fails e
           \/ (exists failure, print_error dev failure = Fails e)
           \/ music_unload dev = Fails e
           \/ os_remove dev (audio_file dev) = Fails e)
     /\ (print_reply dev cleaned_text = Done ->
         (forall failure, print_error dev failure = Done) ->
         music_unload dev = Done -> os_remove dev (audio_file dev) = Done ->
         o = Ret tt)
     /\ files ∖ {[audio_file dev]} ⊆ files'
     /\ files' ⊆ files ∪ {[audio_file dev]})
  /\ (forall fuel e,
     print_reply dev cleaned_text = Fails e ->
     speak_steps dev self fuel text slow files = Some (Raise e, files))
  /\ (forall fuel,
     (exists n, n < fuel /\ music_get_busy dev n <> Busy) ->
     exists o files', speak_steps dev self fuel text slow files = Some (o, files'))
  /\ (print_reply dev cleaned_text = Done ->
      gtts_new dev cleaned_text (before_dash (language self)) slow (tld self) = Done ->
      gtts_save dev (audio_file dev) = Saved ->
      music_load dev (audio_file dev) = Done ->
      music_play dev = Done ->
      (forall n, music_get_busy dev n = Busy) ->
      forall fuel, speak_steps dev self fuel text slow files = None).
Proof.
  intros cleaned_text. split; [|split; [|split]].
  - intros fuel o files' Hspeak. unfold speak_steps in Hspeak.
    fold cleaned_text in Hspeak.
    destruct (print_reply dev cleaned_text) as [|e0] eqn:Hprint.
    + destruct (play_audio dev self fuel cleaned_text slow files)
        as [[r played]|] eqn:Hplay; [|discriminate].
      apply play_audio_files in Hplay.
      destruct (cleanup_audio dev played) as [o' files''] eqn:Hclean.
      apply cleanup_audio_spec in Hclean as (Hret & Hraise & Hok).
      destruct o' as [[]|e'].
      * rewrite (Hret eq_refl) in Hspeak.
        destruct (report_failure dev r) as [|e''] eqn:Hreport;
          inversion Hspeak; subst; clear Hspeak.
        -- split; [intros _; destruct Hplay as [-> | ->]; solve_files|].
           split; [discriminate|]. split; [reflexivity|].
           destruct Hplay as [-> | ->]; solve_files.
        -- split; [discriminate|].
           split.
           { intros e He. inversion He; subst. right; left.
             destruct r as [|failure]; [discriminate|]. now exists failure. }
           split.
           { intros _ Herrors _ _. destruct r as [|failure]; [discriminate|].
             simpl in Hreport. rewrite Herrors in Hreport. discriminate. }
           destruct Hplay as [-> | ->]; solve_files.
      * inversion Hspeak; subst; clear Hspeak.
        destruct (Hraise e' eq_refl) as [-> Hcause].
        split; [discriminate|].
        split; [intros e He; inversion He; subst; tauto|].
        split.
        { intros _ _ Hunload Hremove. now apply Hok. }
        destruct Hplay as [-> | ->]; solve_files.
    + inversion Hspeak; subst; clear Hspeak.
      split; [discriminate|].
      split; [intros e He; inversion He; subst; now left|].
      split; [discriminate|]. solve_files.
  - intros fuel e Hprint. unfold speak_steps. fold cleaned_text. now rewrite Hprint.
  - intros fuel Hidle. unfold speak_steps. fold cleaned_text.
    destruct (print_reply dev cleaned_text); [|eauto].
    destruct (play_audio_ends dev self fuel cleaned_text slow files Hidle)
      as (r & played & ->).
    destruct (cleanup_audio dev played) as [[[]|e] files']; [|eauto].
    destruct (report_failure dev r); eauto.
  - intros Hprint Hnew Hsave Hload Hplay Hbusy fuel.
    unfold speak_steps, play_audio. fold cleaned_text.
    rewrite Hprint, Hnew, Hsave, Hload, Hplay.
    now rewrite (wait_playback_busy dev fuel Hbusy).
Qed.

Lemma speak_absorbs_failures_and_cleans_up_witness :
  let files : gset string := {["response_0a1b2c3d.mp3"; "notes.txt"]} in
  (exists n, n < 10 /\ music_get_busy refusing_device n <> Busy)
  /\ (exists files',
        speak_steps refusing_device SpeechHandler_init 10 "Namaste ji" false files
        = Some (Ret tt, files')
        /\ files' = files ∖ {["response_0a1b2c3d.mp3"]})
  /\ (forall n, music_get_busy endless_device n = Busy)
  /\ (forall fuel,
        speak_steps endless_device SpeechHandler_init fuel "Namaste ji" false files
        = None).
Proof.
  intros files.
  assert (exists n, n < 10 /\ music_get_busy refusing_device n <> Busy) as Hidle
    by (exists 0; split; [lia | discriminate]).
  split; [exact Hidle|]. split.
  - destruct (speak_absorbs_failures_and_cleans_up refusing_device
                SpeechHandler_init "Namaste ji" false files)
      as (Hresult & _ & Hends & _).
    destruct (Hends 10 Hidle) as (o & files' & Hspeak).
    destruct (Hresult 10 o files' Hspeak) as (Hret & _ & Hok & _).
    exists files'.
    rewrite (Hok eq_refl (fun _ => eq_refl) eq_refl eq_refl) in Hspeak.
    split; [exact Hspeak|].
    exact (Hret (Hok eq_refl (fun _ => eq_refl) eq_refl eq_refl)).
  - split; [reflexivity|].
    destruct (speak_absorbs_failures_and_cleans_up endless_device
                SpeechHandler_init "Namaste ji" false files)
      as (_ & _ & _ & Hnever).
    exact (Hnever eq_refl eq_refl eq_refl eq_refl eq_refl (fun _ => eq_refl)).
Defined.

(** X14: the clean-up is not unconditional.  When the audio was saved and
    unloading the player then fails, that exception leaves [speak] and the
    audio file stays behind, because the removal comes after the unloading
    in the [finally] block; this is so whatever the text is. *)
Theorem failed_unload_leaves_the_file
  (dev : AudioDevice) (self : SpeechHandler) (fuel : nat)
  (text : string) (slow : bool) (files : gset string) (e : exn) :
  let cleaned_text := cleaned_for (re_sub dev) text in
  print_reply dev cleaned_text = Done ->
  gtts_new dev cleaned_text (before_dash (language self)) slow (tld self) = Done ->
  gtts_save dev (audio_file dev) = Saved ->
  music_unload dev = Fails e ->
  (forall o files',
     speak_steps dev self fuel text slow files = Some (o, files') ->
     o = Raise e /\ audio_file dev ∈ files' /\ files' = {[audio_file dev]} ∪ files)
  /\ ((exists n, n < fuel /\ music_get_busy dev n <> Busy) ->
      speak_steps dev self fuel text slow files
      = Some (Raise e, {[audio_file dev]} ∪ files)).
Proof.
  intros cleaned_text Hprint Hnew Hsave Hunload.
  assert (forall o files',
            speak_steps dev self fuel text slow files = Some (o, files') ->
            o = Raise e /\ audio_file dev ∈ files'
            /\ files' = {[audio_file dev]} ∪ files) as Hresult.
  { intros o files' Hspeak.
    unfold speak_steps in Hspeak. fold cleaned_text in Hspeak.
    unfold play_audio, cleanup_audio in Hspeak.
    rewrite Hprint, Hnew, Hsave, Hunload in Hspeak.
    destruct (music_load dev _); [|inversion Hspeak; subst; solve_files].
    destruct (music_play dev); [|inversion Hspeak; subst; solve_files].
    destruct (wait_playback dev fuel 0); inversion Hspeak; subst; solve_files. }
  split; [exact Hresult|].
  intros Hidle.
  assert (exists o files', speak_steps dev self fuel text slow files = Some (o, files'))
    as (o & files' & Hspeak).
  { unfold speak_steps. fold cleaned_text. rewrite Hprint.
    destruct (play_audio_ends dev self fuel cleaned_text slow files Hidle)
      as (r & played & ->).
    destruct (cleanup_audio dev played) as [[[]|e'] files']; [|eauto].
    destruct (report_failure dev r); eauto. }
  destruct (Hresult o files' Hspeak) as (-> & _ & ->). exact Hspeak.
Qed.

Lemma failed_unload_leaves_the_file_witness :
  print_reply stuck_device (cleaned_for (re_sub stuck_device) "Namaste ji") = Done
  /\ music_unload stuck_device = Fails (OtherError "pygame.error" "mixer not initialized")
  /\ (exists n, n < 10 /\ music_get_busy stuck_device n <> Busy)
  /\ speak_steps stuck_device SpeechHandler_init 10 "Namaste ji" false ∅
     = Some (Raise (OtherError "pygame.error" "mixer not initialized"),
             {[audio_file stuck_device]} ∪ ∅).
Proof.
  assert (exists n, n < 10 /\ music_get_busy stuck_device n <> Busy) as Hidle
    by (exists 3; split; [lia | discriminate]).
  split; [reflexivity|]. split; [reflexivity|]. split; [exact Hidle|].
  exact (proj2 (failed_unload_leaves_the_file stuck_device
           SpeechHandler_init 10 "Namaste ji" false ∅
           (OtherError "pygame.error" "mixer not initialized")
           eq_refl eq_refl eq_refl eq_refl) Hidle).
Defined.

(** ** Ending a call *)

Lemma count_listens_snoc (log : list event) (ev : event) :
  count_listens (log ++ [ev])
  = count_listens log + (if is_listen ev then 1 else 0).
Proof.
  unfold count_listens. rewrite List.filter_app, length_app. simpl.
  now destruct ev.
Qed.

Lemma conversation_loop_with_finishes (str_lower : string -> string)
  (hangs : list event -> string -> bool) (svc : Services) (n : nat) :
  (forall log text, hangs log text = false) ->
  (forall log, n <= count_listens log ->
     exists raw, recognizer svc log = Heard raw
                 /\ str_lower (str_lower raw) ∈ exit_commands) ->
  forall k self,
    n <= count_listens (calls self) + k ->
    exists o final,
      conversation_loop_with str_lower hangs svc (S k) self = Some (o, final).
Proof.
  intros Hends Hexit. induction k as [|k IH]; intros self Hcount.
  - rewrite conversation_loop_with_S. destruct (running self) eqn:Hrun; [|eauto].
    destruct (Hexit (calls self)) as (raw & Hrec & Hraw); [lia|].
    unfold mbind, M_bind, recognize_speech_with. rewrite Hrec.
    unfold is_exit_command_with. rewrite bool_decide_eq_true_2 by assumption.
    unfold mret, M_ret. eauto.
  - rewrite conversation_loop_with_S. destruct (running self) eqn:Hrun; [|eauto].
    unfold mbind at 1, M_bind at 1.
    destruct (recognize_speech_with_total str_lower svc self) as [[u|e] ->]; [|eauto].
    destruct (is_exit_command_with str_lower u); [unfold mret, M_ret; eauto|].
    destruct (truthy u).
    + unfold mbind at 1, M_bind at 1. rewrite run_conversation_chain_eq.
      unfold mbind at 1, M_bind at 1.
      rewrite (speak_with_ends hangs svc) by apply Hends.
      destruct (speak_total svc
                  (after_generation svc "conversation" u
                     (with_memory (add_user_message u) (record_call EvListen self))).1
                  (after_generation svc "conversation" u
                     (with_memory (add_user_message u) (record_call EvListen self))).2)
        as [[[]|e] Hsp]; rewrite Hsp; [|eauto].
      apply IH. simpl. rewrite !count_listens_snoc. simpl. lia.
    + apply IH. simpl. rewrite count_listens_snoc. simpl. lia.
Qed.

(** X15: a call ends once the customer says an exit command, provided
    every playback ends.  If from the n-th listening attempt on an exit
    command is recognised and no playback hangs, the call finishes within
    n+1 iterations of the loop, whatever the model answers and whether or
    not the synthesis fails: [start_call] returns, without an exception
    and with the running flag cleared.  If the playback of the greeting
    never ends, [start_call] never returns. *)
Theorem exit_command_ends_the_call
  (str_lower : string -> string) (hangs : list event -> string -> bool)
  (svc : Services) (n : nat) (self : GeminiAgent) :
  (forall log, n <= count_listens log ->
     exists raw, recognizer svc log = Heard raw
                 /\ str_lower (str_lower raw) ∈ exit_commands) ->
  ((forall log text, hangs log text = false) ->
   exists final,
     start_call_with str_lower hangs svc (S n) self = Some (Ret tt, final)
     /\ running final = false)
  /\ (forall greeting greeted,
      run_greeting_chain svc (with_running true self) = Some (Ret greeting, greeted) ->
      hangs (calls greeted) greeting = true ->
      forall fuel, start_call_with str_lower hangs svc fuel self = None).
Proof.
  intros Hexit. split.
  - intros Hends. unfold start_call_with, end_call.
    rewrite call_body_with_eq. cbv zeta.
    rewrite (speak_with_ends hangs svc) by apply Hends.
    destruct (speak_total svc
                (after_generation svc "greeting" EmptyString (with_running true self)).1
                (after_generation svc "greeting" EmptyString (with_running true self)).2)
      as [[[]|e] Hsp]; rewrite Hsp; [|eauto].
    destruct (conversation_loop_with_finishes str_lower hangs svc n Hends Hexit n
                (record_call
                   (EvSpeak (after_generation svc "greeting" EmptyString
                               (with_running true self)).1)
                   (after_generation svc "greeting" EmptyString
                      (with_running true self)).2))
      as (o & done & Hloop); [lia|].
    rewrite Hloop. destruct o as [[]|e]; [|eauto].
    rewrite (speak_with_ends hangs svc) by apply Hends.
    destruct (speak_total svc
                (after_generation svc "farewell" EmptyString done).1
                (after_generation svc "farewell" EmptyString done).2)
      as [[[]|e] Hsp']; rewrite Hsp'; eauto.
  - intros greeting greeted Hgreet Hhangs fuel.
    rewrite run_greeting_chain_eq in Hgreet. injection Hgreet as <- <-.
    apply (speak_with_hangs hangs svc) in Hhangs.
    assert (speak_with hangs svc
              (after_generation svc "greeting" EmptyString (with_running true self)).1
              (after_generation svc "greeting" EmptyString (with_running true self)).2
            = None) as Hnone by exact Hhangs.
    unfold start_call_with. rewrite call_body_with_eq. cbv zeta.
    now rewrite Hnone.
Qed.

Lemma exit_command_ends_the_call_witness :
  (forall log, 2 <= count_listens log ->
     exists raw, recognizer polite_services log = Heard raw
                 /\ python_lower lower (python_lower lower raw) ∈ exit_commands)
  /\ (exists final,
        start_call_with (python_lower lower) never_hangs polite_services 3
          (GeminiAgent_init "interview")
        = Some (Ret tt, final)
        /\ running final = false)
  /\ (forall fuel,
        start_call_with (python_lower lower) first_playback_hangs polite_services fuel
          (GeminiAgent_init "interview") = None).
Proof.
  assert (forall log, 2 <= count_listens log ->
            exists raw, recognizer polite_services log = Heard raw
                        /\ python_lower lower (python_lower lower raw) ∈ exit_commands)
    as Hexit.
  { intros log Hlog. exists "Bye". split.
    - simpl. destruct (Nat.ltb_spec (count_listens log) 2); [lia | reflexivity].
    - vm_compute. repeat constructor. }
  split; [exact Hexit|]. split.
  - exact (proj1 (exit_command_ends_the_call (python_lower lower) never_hangs
                    polite_services 2 (GeminiAgent_init "interview") Hexit)
             (fun _ _ => eq_refl)).
  - exact (proj2 (exit_command_ends_the_call (python_lower lower)
                    first_playback_hangs polite_services 2
                    (GeminiAgent_init "interview") Hexit)
             _ _ (run_greeting_chain_eq polite_services
                    (with_running true (GeminiAgent_init "interview")))
             eq_refl).
Defined.

(** ** Speech and history *)

Lemma spoken_texts_app (a b : list event) :
  spoken_texts (a ++ b) = spoken_texts a ++ spoken_texts b.
Proof.
  induction a as [|ev a IH]; [reflexivity|].
  simpl. destruct ev; simpl; now rewrite IH.
Qed.

Lemma agent_texts_app (a b : list message) :
  agent_texts (a ++ b) = agent_texts a ++ agent_texts b.
Proof.
  induction a as [|m a IH]; [reflexivity|].
  simpl. destruct (msg_role m); simpl; now rewrite IH.
Qed.

Lemma mirrors_refl (s : GeminiAgent) : speech_mirrors_history s s.
Proof. exists [], []. now rewrite !app_nil_r. Qed.

Lemma mirrors_trans (a b c : GeminiAgent) :
  speech_mirrors_history a b -> speech_mirrors_history b c ->
  speech_mirrors_history a c.
Proof.
  intros (m1 & n1 & Hm1 & Hn1 & H1) (m2 & n2 & Hm2 & Hn2 & H2).
  exists (m1 ++ m2), (n1 ++ n2).
  split; [now rewrite Hm2, Hm1, app_assoc|].
  split; [now rewrite Hn2, Hn1, app_assoc|].
  now rewrite spoken_texts_app, agent_texts_app, H1, H2.
Qed.

Lemma mirrors_listen (s : GeminiAgent) :
  speech_mirrors_history s (record_call EvListen s).
Proof. exists [], [EvListen]. simpl. now rewrite app_nil_r. Qed.

Lemma mirrors_say (svc : Services) (phase : string) (s : GeminiAgent) :
  speech_mirrors_history s
    (record_call (EvSpeak (after_generation svc phase EmptyString s).1)
       (after_generation svc phase EmptyString s).2).
Proof.
  eexists _, _. split; [reflexivity|].
  split; [simpl; now rewrite <- app_assoc | reflexivity].
Qed.

Lemma mirrors_turn (svc : Services) (u : string) (s : GeminiAgent) :
  speech_mirrors_history s
    (record_call
       (EvSpeak (after_generation svc "conversation" u
                   (with_memory (add_user_message u) (record_call EvListen s))).1)
       (after_generation svc "conversation" u
          (with_memory (add_user_message u) (record_call EvListen s))).2).
Proof.
  eexists _, _. split; [simpl; now rewrite <- app_assoc|].
  split; [simpl; now rewrite <- !app_assoc | reflexivity].
Qed.

(** X16: what the customer is told is what the history says the agent
    said.  Over any call, the texts passed to [speak] are exactly the
    contents of the agent turns appended to the history, in the same
    order; in particular no utterance of the user is ever spoken back and
    no agent turn is recorded without being spoken. *)
Theorem speech_matches_agent_turns
  (svc : Services) (fuel : nat) (self final : GeminiAgent) (o : outcome unit) :
  start_call svc fuel self = Some (o, final) ->
  exists added new,
    messages (memory final) = messages (memory self) ++ added
    /\ calls final = calls self ++ new
    /\ spoken_texts new = agent_texts added.
Proof.
  intros Hcall.
  exact (start_call_invariant svc speech_mirrors_history mirrors_refl mirrors_trans
           (fun b s => mirrors_refl s) mirrors_listen (mirrors_say svc)
           (mirrors_turn svc) fuel self final o Hcall).
Qed.

Lemma speech_matches_agent_turns_witness :
  start_call one_turn_services 2 (GeminiAgent_init "demo") = Some (Ret tt, one_turn_final)
  /\ spoken_texts (calls one_turn_final) = ["Namaste ji"; "Namaste ji"; "Namaste ji"]
  /\ exists added new,
       messages (memory one_turn_final) = added
       /\ calls one_turn_final = new
       /\ spoken_texts new = agent_texts added.
Proof.
  assert (start_call one_turn_services 2 (GeminiAgent_init "demo")
          = Some (Ret tt, one_turn_final)) as Hcall by (vm_compute; reflexivity).
  split; [exact Hcall|]. split; [vm_compute; reflexivity|].
  exact (speech_matches_agent_turns one_turn_services 2 (GeminiAgent_init "demo")
           one_turn_final (Ret tt) Hcall).
Defined.
